(** * Two-level TLB simulator (OC Lab 2, [src/tlb.c]): model and properties

    The translation unit [tlb.c] keeps two fully associative arrays of
    [tlb_entry_t] ([tlb_l1], [tlb_l2]), six statistics counters and a
    file-local [access_counter].  Everything is global mutable state, so
    the embedding threads one [tlb_state] record through every function.
    Calls to the collaborators declared in the missing headers
    ([increment_time], [page_table_translate], [write_back_tlb_entry]) are
    recorded, in program order, in a list of [event]s returned next to the
    new state.  The collaborators are taken not to call back into this unit
    while a call is in progress; what [page_table_translate] returns is an
    input of the model.  The six accessors [get_total_tlb_*] are the
    projections of [tlb_state]. *)

From Stdlib Require Import ZArith Lia.
From stdpp Require Import base list.

Local Open Scope Z_scope.

(** ** Configuration ([constants.h], not part of the translation unit)

    The array capacities, the page size and the two latencies are macros of
    a header that is not available; they are taken as parameters. *)
Class tlb_config := TlbConfig {
  TLB_L1_SIZE : nat;
  TLB_L2_SIZE : nat;
  PAGE_SIZE_BITS : Z;
  TLB_L1_LATENCY_NS : Z;
  TLB_L2_LATENCY_NS : Z
}.

(** Modelled from the spec: [op_t] is declared in a header that is not
    available; an operation is a read or a write, and the code names the two
    values [OP_READ] and [OP_WRITE]. *)
Inductive op_t := OP_READ | OP_WRITE.

Definition is_write (op : op_t) : bool :=
  match op with OP_WRITE => true | OP_READ => false end.

(** [uint64_t] arithmetic: values are integers reduced modulo [2^64].

    Modelled from the spec: [va_t] and [pa_dram_t] are typedefs of headers
    that are not available; page numbers and addresses are unsigned
    integers, the code mixes them freely with [uint64_t] and [1ULL], and
    they are taken to be 64 bits wide as well. *)
Definition uint64 (x : Z) : Z := x mod 2 ^ 64.

Arguments uint64 : simpl never.

(** [tlb_entry_t] (tlb.c, lines 14-20). *)
Record tlb_entry_t := TlbEntry {
  valid : bool;
  dirty : bool;
  last_access : Z;
  virtual_page_number : Z;
  physical_page_number : Z
}.

(** The all-zero entry, as left by [memset] or by static initialisation. *)
Definition zero_entry : tlb_entry_t := TlbEntry false false 0 0 0.

#[global] Instance tlb_entry_inhabited : Inhabited tlb_entry_t :=
  populate zero_entry.

(** The globals of tlb.c (lines 22-41). *)
Record tlb_state := TlbState {
  tlb_l1 : list tlb_entry_t;
  tlb_l2 : list tlb_entry_t;
  tlb_l1_hits : Z;
  tlb_l1_misses : Z;
  tlb_l1_invalidations : Z;
  tlb_l2_hits : Z;
  tlb_l2_misses : Z;
  tlb_l2_invalidations : Z;
  access_counter : Z
}.

(** Calls that leave the translation unit. *)
Inductive event :=
| increment_time (ns : Z)
| page_table_translate (virtual_address : Z) (op : op_t)
| write_back_tlb_entry (physical_address : Z).

(** The addresses handed to [write_back_tlb_entry], in call order. *)
Fixpoint write_backs (tr : list event) : list Z :=
  match tr with
  | [] => []
  | write_back_tlb_entry pa :: tr' => pa :: write_backs tr'
  | _ :: tr' => write_backs tr'
  end.

(** ** Field assignments on one entry *)

Definition set_valid (b : bool) (e : tlb_entry_t) : tlb_entry_t :=
  TlbEntry b (dirty e) (last_access e) (virtual_page_number e)
           (physical_page_number e).

Definition set_dirty (b : bool) (e : tlb_entry_t) : tlb_entry_t :=
  TlbEntry (valid e) b (last_access e) (virtual_page_number e)
           (physical_page_number e).

Definition set_last_access (t : Z) (e : tlb_entry_t) : tlb_entry_t :=
  TlbEntry (valid e) (dirty e) t (virtual_page_number e)
           (physical_page_number e).

(** What a hit does to the entry it finds (lines 189-195 and 211-217):
    [last_access = ++access_counter], then [dirty = true] on a write. *)
Definition touch (t : Z) (op : op_t) (e : tlb_entry_t) : tlb_entry_t :=
  let e1 := set_last_access t e in
  if is_write op then set_dirty true e1 else e1.

(** ** Loops over one level *)

(** The lookup condition [arr[i].valid && arr[i].virtual_page_number == vpn]. *)
Definition tlb_match (vpn : Z) (e : tlb_entry_t) : bool :=
  valid e && (virtual_page_number e =? vpn).

(** [for (i = 0; i < SIZE; i++) if (p(arr[i])) { ...; break; }]:
    the index at which the loop body fires, scanning from slot [i]. *)
Fixpoint first_slot (p : tlb_entry_t -> bool) (arr : list tlb_entry_t)
    (i : nat) : option nat :=
  match arr with
  | [] => None
  | e :: arr' => if p e then Some i else first_slot p arr' (S i)
  end.

(** The second loop of [find_lru_victim_l1] / [_l2] (lines 124-129,
    154-159), started at slot [i] with the running minimum [oldest_time]
    and its index [lru_index]. *)
Fixpoint lru_scan (arr : list tlb_entry_t) (i : nat) (oldest_time : Z)
    (lru_index : nat) : nat :=
  match arr with
  | [] => lru_index
  | e :: arr' =>
      if last_access e <? oldest_time
      then lru_scan arr' (S i) (last_access e) i
      else lru_scan arr' (S i) oldest_time lru_index
  end.

(** The body shared by [find_lru_victim_l1] and [find_lru_victim_l2]:
    first free slot, else the first slot with the least [last_access]. *)
Definition find_lru_victim (arr : list tlb_entry_t) : nat :=
  match first_slot (fun e => negb (valid e)) arr 0 with
  | Some i => i
  | None => lru_scan (drop 1 arr) 1 (last_access (arr !!! 0%nat)) 0
  end.

Definition find_lru_victim_l1 (s : tlb_state) : nat :=
  find_lru_victim (tlb_l1 s).

Definition find_lru_victim_l2 (s : tlb_state) : nat :=
  find_lru_victim (tlb_l2 s).

(** The re-scan of lines 229-238, entered when the L2 victim is the slot
    [i] that has just hit: slot [j] is examined with the running minimum
    [oldest_time]; [l2_pos] moves only to a new minimum other than [i]. *)
Fixpoint rescan_l2 (arr : list tlb_entry_t) (j i : nat) (oldest_time : Z)
    (l2_pos : nat) : nat :=
  match arr with
  | [] => l2_pos
  | e :: arr' =>
      if last_access e <? oldest_time
      then rescan_l2 arr' (S j) i (last_access e)
             (if (j =? i)%nat then l2_pos else j)
      else rescan_l2 arr' (S j) i oldest_time l2_pos
  end.

(** Lines 225-239: the L2 slot that receives a demoted L1 victim, computed
    on the L2 array as it is after the hit at slot [i] was recorded. *)
Definition demotion_slot (l2 : list tlb_entry_t) (i : nat) : nat :=
  let l2_pos := find_lru_victim l2 in
  if (l2_pos =? i)%nat
  then rescan_l2 (drop 1 l2) 1 i (last_access (l2 !!! 0%nat)) l2_pos
  else l2_pos.

(** ** The functions of tlb.c *)

(** One call on the public interface; for [tlb_translate] the last field is
    the answer of the page table walker, should it be consulted. *)
Inductive call :=
| call_init
| call_translate (virtual_address : Z) (op : op_t) (physical_address : Z)
| call_invalidate (vpn : Z).

Section Functions.
Context {cfg : tlb_config}.

(** The state a process starts in: C zero-initialises the arrays, and
    every counter has the initialiser [0]. *)
Definition boot : tlb_state :=
  TlbState (replicate TLB_L1_SIZE zero_entry)
           (replicate TLB_L2_SIZE zero_entry) 0 0 0 0 0 0 0.

(** [tlb_init] (lines 43-52): both arrays are [memset] to zero and the six
    statistics are cleared; [access_counter] is not assigned. *)
Definition tlb_init (s : tlb_state) : tlb_state :=
  TlbState (replicate TLB_L1_SIZE zero_entry)
           (replicate TLB_L2_SIZE zero_entry) 0 0 0 0 0 0
           (access_counter s).

(** [ppn << PAGE_SIZE_BITS] on a 64-bit unsigned value. *)
Definition page_address (ppn : Z) : Z :=
  uint64 (Z.shiftl ppn PAGE_SIZE_BITS).

(** [(1ULL << PAGE_SIZE_BITS) - 1]. *)
Definition page_mask : Z :=
  uint64 (uint64 (Z.shiftl 1 PAGE_SIZE_BITS) - 1).

(** [tlb_invalidate] (lines 67-99). *)
Definition tlb_invalidate (s : tlb_state) (vpn : Z)
    : tlb_state * list event :=
  let '(l1, inv1) :=
    match first_slot (tlb_match vpn) (tlb_l1 s) 0 with
    | Some i =>
        (<[i := set_valid false (tlb_l1 s !!! i)]> (tlb_l1 s),
         uint64 (tlb_l1_invalidations s + 1))
    | None => (tlb_l1 s, tlb_l1_invalidations s)
    end in
  let '(l2, inv2, tr) :=
    match first_slot (tlb_match vpn) (tlb_l2 s) 0 with
    | Some i =>
        let e := tlb_l2 s !!! i in
        (<[i := set_valid false e]> (tlb_l2 s),
         uint64 (tlb_l2_invalidations s + 1),
         if dirty e
         then [write_back_tlb_entry (page_address (physical_page_number e))]
         else [])
    | None => (tlb_l2 s, tlb_l2_invalidations s, [])
    end in
  (TlbState l1 l2 (tlb_l1_hits s) (tlb_l1_misses s) inv1
            (tlb_l2_hits s) (tlb_l2_misses s) inv2 (access_counter s),
   tr).

(** [tlb_translate], L1 hit at slot [i] (lines 188-199). *)
Definition translate_l1_hit (s : tlb_state) (i : nat) (op : op_t)
    (page_offset : Z) : tlb_state * Z * list event :=
  let c := uint64 (access_counter s + 1) in
  let e := touch c op (tlb_l1 s !!! i) in
  (TlbState (<[i := e]> (tlb_l1 s)) (tlb_l2 s)
            (uint64 (tlb_l1_hits s + 1)) (tlb_l1_misses s)
            (tlb_l1_invalidations s)
            (tlb_l2_hits s) (tlb_l2_misses s) (tlb_l2_invalidations s) c,
   Z.lor (page_address (physical_page_number e)) page_offset,
   [increment_time TLB_L1_LATENCY_NS]).

(** L2 once a hit at slot [i] has been recorded (lines 211-217). *)
Definition record_l2_hit (s : tlb_state) (i : nat) (op : op_t)
    : list tlb_entry_t :=
  <[i := touch (uint64 (access_counter s + 1)) op (tlb_l2 s !!! i)]> (tlb_l2 s).

(** [tlb_translate], L1 miss and L2 hit at slot [i] (lines 204-251).
    [l2a] is L2 once the hit is recorded, [l2b] once a valid and dirty L1
    victim has been copied over slot [demotion_slot l2a i]; the promotion
    and the result read slot [i] of [l2b]. *)
Definition translate_l2_hit (s : tlb_state) (i : nat) (op : op_t)
    (page_offset : Z) : tlb_state * Z * list event :=
  let c := uint64 (access_counter s + 1) in
  let l2a := record_l2_hit s i op in
  let l1_pos := find_lru_victim (tlb_l1 s) in
  let victim := tlb_l1 s !!! l1_pos in
  let l2b :=
    if valid victim && dirty victim
    then <[demotion_slot l2a i := victim]> l2a
    else l2a in
  let l1' := <[l1_pos := l2b !!! i]> (tlb_l1 s) in
  let l2' := <[i := set_last_access c (l2b !!! i)]> l2b in
  (TlbState l1' l2'
            (tlb_l1_hits s) (uint64 (tlb_l1_misses s + 1))
            (tlb_l1_invalidations s)
            (uint64 (tlb_l2_hits s + 1)) (tlb_l2_misses s)
            (tlb_l2_invalidations s) c,
   Z.lor (page_address (physical_page_number (l2' !!! i))) page_offset,
   [increment_time TLB_L1_LATENCY_NS; increment_time TLB_L2_LATENCY_NS]).

(** [tlb_translate], miss in both levels (lines 204-205 and 256-286).
    [physical_address] is what [page_table_translate] returned. *)
Definition translate_miss (s : tlb_state) (virtual_address : Z) (op : op_t)
    (physical_address : Z) : tlb_state * Z * list event :=
  let vpn := Z.shiftr virtual_address PAGE_SIZE_BITS in
  let ppn := Z.shiftr physical_address PAGE_SIZE_BITS in
  let l2_pos := find_lru_victim (tlb_l2 s) in
  let old := tlb_l2 s !!! l2_pos in
  let c1 := uint64 (access_counter s + 1) in
  let l2' := <[l2_pos := TlbEntry true (is_write op) c1 vpn ppn]> (tlb_l2 s) in
  let l1_pos := find_lru_victim (tlb_l1 s) in
  let c2 := uint64 (c1 + 1) in
  let l1' := <[l1_pos := TlbEntry true (is_write op) c2 vpn ppn]> (tlb_l1 s) in
  (TlbState l1' l2'
            (tlb_l1_hits s) (uint64 (tlb_l1_misses s + 1))
            (tlb_l1_invalidations s)
            (tlb_l2_hits s) (uint64 (tlb_l2_misses s + 1))
            (tlb_l2_invalidations s) c2,
   physical_address,
   [increment_time TLB_L1_LATENCY_NS; increment_time TLB_L2_LATENCY_NS;
    page_table_translate virtual_address op]
   ++ (if valid old && dirty old
       then [write_back_tlb_entry (page_address (physical_page_number old))]
       else [])).

(** [tlb_translate] (lines 180-287).  The answer of the external page
    table walker is the input [physical_address]; it is consulted only
    when both levels miss. *)
Definition tlb_translate (s : tlb_state) (virtual_address : Z) (op : op_t)
    (physical_address : Z) : tlb_state * Z * list event :=
  let vpn := Z.shiftr virtual_address PAGE_SIZE_BITS in
  let page_offset := Z.land virtual_address page_mask in
  match first_slot (tlb_match vpn) (tlb_l1 s) 0 with
  | Some i => translate_l1_hit s i op page_offset
  | None =>
      match first_slot (tlb_match vpn) (tlb_l2 s) 0 with
      | Some i => translate_l2_hit s i op page_offset
      | None => translate_miss s virtual_address op physical_address
      end
  end.

(** ** Sequences of calls on the public interface *)

Definition exec (s : tlb_state) (c : call) : tlb_state :=
  match c with
  | call_init => tlb_init s
  | call_translate va op pa => (tlb_translate s va op pa).1.1
  | call_invalidate vpn => (tlb_invalidate s vpn).1
  end.

(** The state after a sequence of calls, oldest call first. *)
Definition run (s : tlb_state) (cs : list call) : tlb_state :=
  fold_left exec cs s.

End Functions.

(** The configuration of the worked scenarios: two L1 slots, four L2 slots
    and 4 KiB pages; the latencies play no role. *)
Definition small_config : tlb_config := TlbConfig 2 4 12 1 10.

(** ** Specification vocabulary *)

(** Both arrays have their declared capacity. *)
Definition well_sized {cfg : tlb_config} (s : tlb_state) : Prop :=
  length (tlb_l1 s) = TLB_L1_SIZE /\ length (tlb_l2 s) = TLB_L2_SIZE.

(** Slot [r] is the lowest-numbered invalid slot of [arr]. *)
Definition first_free (arr : list tlb_entry_t) (r : nat) : Prop :=
  exists e, arr !! r = Some e /\ valid e = false /\
    forall j e', (j < r)%nat -> arr !! j = Some e' -> valid e' = true.

(** Slot [r] holds the least [last_access] of [arr], and is the
    lowest-numbered slot that does. *)
Definition least_recent (arr : list tlb_entry_t) (r : nat) : Prop :=
  exists e, arr !! r = Some e /\
    (forall j e', arr !! j = Some e' -> last_access e <= last_access e') /\
    (forall j e', (j < r)%nat -> arr !! j = Some e' ->
                  last_access e < last_access e').

(** Some valid entry of [arr] maps [vpn]. *)
Definition maps_vpn (arr : list tlb_entry_t) (vpn : Z) : Prop :=
  exists k e, arr !! k = Some e /\ valid e = true /\
              virtual_page_number e = vpn.

(** At most one valid entry of [arr] maps any given page. *)
Definition no_duplicates (arr : list tlb_entry_t) : Prop :=
  forall j k ej ek,
    arr !! j = Some ej -> arr !! k = Some ek ->
    valid ej = true -> valid ek = true ->
    virtual_page_number ej = virtual_page_number ek -> j = k.

(** The two levels, and the array of a level. *)
Inductive level := L1 | L2.

Definition level_array (lvl : level) (s : tlb_state) : list tlb_entry_t :=
  match lvl with L1 => tlb_l1 s | L2 => tlb_l2 s end.

(** Where [tlb_translate] hits for page [vpn]: L1 is probed first, L2 only
    when L1 misses. *)
Definition hit_at (s : tlb_state) (vpn : Z) : option (level * nat) :=
  match first_slot (tlb_match vpn) (tlb_l1 s) 0 with
  | Some i => Some (L1, i)
  | None =>
      match first_slot (tlb_match vpn) (tlb_l2 s) 0 with
      | Some i => Some (L2, i)
      | None => None
      end
  end.

(** Slot [i] of [arr] exists and has its dirty flag set. *)
Definition slot_dirty (arr : list tlb_entry_t) (i : nat) : Prop :=
  exists e, arr !! i = Some e /\ dirty e = true.

(** What [tlb_invalidate] may change in one level: nothing in a slot that is
    invalid or maps another page, only the valid flag elsewhere, and at most
    one slot in all. *)
Definition invalidate_frame (vpn : Z) (arr arr' : list tlb_entry_t) : Prop :=
  length arr' = length arr /\
  (forall i e, arr !! i = Some e ->
     virtual_page_number e <> vpn \/ valid e = false ->
     arr' !! i = Some e) /\
  (forall i e, arr !! i = Some e ->
     exists e', arr' !! i = Some e' /\
       (e' = e \/ valid e' = false) /\
       dirty e' = dirty e /\ last_access e' = last_access e /\
       virtual_page_number e' = virtual_page_number e /\
       physical_page_number e' = physical_page_number e) /\
  (exists k, forall i, i <> k -> arr' !! i = arr !! i).

(** Every entry of [arr] carries a timestamp of at most [c]. *)
Definition stamped_by (c : Z) (arr : list tlb_entry_t) : Prop :=
  Forall (fun e => last_access e <= c) arr.

(** No entry of either level carries a timestamp ahead of
    [access_counter]. *)
Definition timestamps_bounded (s : tlb_state) : Prop :=
  0 <= access_counter s /\
  stamped_by (access_counter s) (tlb_l1 s) /\
  stamped_by (access_counter s) (tlb_l2 s).

(** What one loop of [tlb_invalidate] does to its array. *)
Definition clear_first_match (vpn : Z) (arr : list tlb_entry_t)
    : list tlb_entry_t :=
  match first_slot (tlb_match vpn) arr 0 with
  | Some i => <[i := set_valid false (arr !!! i)]> arr
  | None => arr
  end.

(** A call sequence short enough that [access_counter], which starts at 0
    and is incremented at most twice per call, cannot have wrapped around
    by the end of the call that follows it. *)
Definition no_wraparound (cs : list call) : Prop :=
  2 * (Z.of_nat (length cs) + 1) < 2 ^ 64.

(** What holds of the state after [n] calls as long as the counter has not
    wrapped; the last part says that a one-slot L2 never holds a page that
    L1 lacks. *)
Definition hierarchy_inv {cfg : tlb_config} (n : Z) (s : tlb_state) : Prop :=
  well_sized s /\ timestamps_bounded s /\ access_counter s <= 2 * n /\
  (TLB_L2_SIZE = 1%nat ->
   forall e, tlb_l2 s !! 0%nat = Some e -> valid e = true ->
             maps_vpn (tlb_l1 s) (virtual_page_number e)).

(** ** Worked scenarios on [small_config] *)

(** A write, resp. a read, of the first byte of page [v]; the page table
    maps page [v] to frame [v + 100]. *)
Definition write_page (v : Z) : call :=
  call_translate (v * 4096) OP_WRITE ((v + 100) * 4096).

Definition read_page (v : Z) : call :=
  call_translate (v * 4096) OP_READ ((v + 100) * 4096).

(** Pages 1 and 2 are written and page 3 is read, which evicts page 1 from
    L1; reading page 1 again hits in L2 and demotes dirty page 2. *)
Definition demotion_calls : list call :=
  [call_init; write_page 1; write_page 2; read_page 3; read_page 1].

(** The same scenario with sixteen L1 slots and sixty-four L2 slots: pages
    1 to 16 are written, page 17 is read, and page 1 is read again. *)
Definition wide_config : tlb_config := TlbConfig 16 64 12 1 10.

Definition wide_demotion_calls : list call :=
  call_init :: map write_page (seqZ 1 16) ++ [read_page 17; read_page 1].

(** Four written pages fill both levels. *)
Definition fill_calls : list call :=
  [call_init; write_page 1; write_page 2; write_page 3; write_page 4].

(** [s] after [n] further L1 hits at slot [k] by reads. *)
Definition after_l1_hits (s : tlb_state) (k : nat) (n : Z) : tlb_state :=
  TlbState
    (<[k := set_last_access (uint64 (access_counter s + n)) (tlb_l1 s !!! k)]>
       (tlb_l1 s))
    (tlb_l2 s)
    (uint64 (tlb_l1_hits s + n)) (tlb_l1_misses s) (tlb_l1_invalidations s)
    (tlb_l2_hits s) (tlb_l2_misses s) (tlb_l2_invalidations s)
    (uint64 (access_counter s + n)).

(** The state [fill_calls] leads to once page 4 has been read often enough
    for [access_counter] to stand at [2^64 - 1]. *)
Definition wrapped_state : tlb_state :=
  after_l1_hits (@run small_config (@boot small_config) fill_calls) 1
                (2 ^ 64 - 9).

(** The same with page 1 loaded by a read, so that its entries are clean. *)
Definition clean_fill_calls : list call :=
  [call_init; read_page 1; write_page 2; write_page 3; write_page 4].

Definition wrapped_clean_state : tlb_state :=
  after_l1_hits (@run small_config (@boot small_config) clean_fill_calls) 1
                (2 ^ 64 - 9).

(** Whether the demotion step of an L2 hit at slot [i] (lines 224-241)
    copies the L1 victim over the slot that has just hit. *)
Definition demotion_overwrites (s : tlb_state) (i : nat) (op : op_t) : bool :=
  let victim := tlb_l1 s !!! find_lru_victim_l1 s in
  valid victim && dirty victim
  && (demotion_slot (record_l2_hit s i op) i =? i)%nat.

(** ** Vocabulary for the external interface and the statistics *)

(** The latencies handed to [increment_time], in call order. *)
Fixpoint latencies (tr : list event) : list Z :=
  match tr with
  | [] => []
  | increment_time ns :: tr' => ns :: latencies tr'
  | _ :: tr' => latencies tr'
  end.

(** The arguments of the calls to [page_table_translate], in call order. *)
Fixpoint walks (tr : list event) : list (Z * op_t) :=
  match tr with
  | [] => []
  | page_table_translate va op :: tr' => (va, op) :: walks tr'
  | _ :: tr' => walks tr'
  end.

(** The number of [tlb_translate] calls since the last [tlb_init], counted
    along a call sequence from the running count [n]. *)
Definition count_translation (n : Z) (c : call) : Z :=
  match c with
  | call_init => 0
  | call_translate _ _ _ => n + 1
  | call_invalidate _ => n
  end.

Definition translations_since_init (cs : list call) : Z :=
  fold_left count_translation cs 0.

(** The four hit and miss counters are 64-bit values, every L1 miss is
    accounted for as an L2 hit or an L2 miss, and the L1 counters add up to
    [n] translations, all modulo [2^64]. *)
Definition statistics_consistent (n : Z) (s : tlb_state) : Prop :=
  (0 <= tlb_l1_hits s < 2 ^ 64 /\ 0 <= tlb_l1_misses s < 2 ^ 64 /\
   0 <= tlb_l2_hits s < 2 ^ 64 /\ 0 <= tlb_l2_misses s < 2 ^ 64) /\
  tlb_l1_misses s = uint64 (tlb_l2_hits s + tlb_l2_misses s) /\
  uint64 (tlb_l1_hits s + tlb_l1_misses s) = uint64 n.

(** Outside slot [i], [arr'] is [arr]. *)
Definition same_except (i : nat) (arr arr' : list tlb_entry_t) : Prop :=
  length arr' = length arr /\ forall j, j <> i -> arr' !! j = arr !! j.

(** ** Facts about the loops *)

Lemma tlb_match_true vpn e :
  tlb_match vpn e = true <-> valid e = true /\ virtual_page_number e = vpn.
Proof.
  unfold tlb_match. rewrite andb_true_iff, Z.eqb_eq. tauto.
Qed.

Lemma first_slot_Some p arr i k :
  first_slot p arr i = Some k ->
  (i <= k)%nat /\
  exists e, arr !! (k - i)%nat = Some e /\ p e = true /\
    forall j e', (j < k - i)%nat -> arr !! j = Some e' -> p e' = false.
Proof.
  revert i. induction arr as [|a arr IH]; intros i; simpl; [discriminate|].
  destruct (p a) eqn:Hp.
  - intros [= <-]. split; [lia|]. replace (i - i)%nat with 0%nat by lia.
    exists a. repeat split; auto. intros j e' Hj. lia.
  - intros H. apply IH in H as (Hle & e & Hk & Hpe & Hbefore).
    split; [lia|]. exists e.
    replace (k - i)%nat with (S (k - S i)) by lia. repeat split; auto.
    intros [|j] e' Hj; simpl.
    + intros [= <-]. exact Hp.
    + apply Hbefore. lia.
Qed.

Lemma first_slot_0_Some p arr k :
  first_slot p arr 0 = Some k ->
  exists e, arr !! k = Some e /\ p e = true /\
    forall j e', (j < k)%nat -> arr !! j = Some e' -> p e' = false.
Proof.
  intros H. apply first_slot_Some in H as (_ & e & H).
  rewrite Nat.sub_0_r in H. eauto.
Qed.

Lemma first_slot_None p arr i :
  first_slot p arr i = None ->
  forall j e, arr !! j = Some e -> p e = false.
Proof.
  revert i. induction arr as [|a arr IH]; intros i; simpl.
  - intros _ j e. rewrite lookup_nil. discriminate.
  - destruct (p a) eqn:Hp; [discriminate|]. intros H [|j] e; simpl.
    + intros [= <-]. exact Hp.
    + eapply IH, H.
Qed.

Lemma first_slot_None_intro p arr i :
  (forall j e, arr !! j = Some e -> p e = false) ->
  first_slot p arr i = None.
Proof.
  revert i. induction arr as [|a arr IH]; intros i H; simpl; [reflexivity|].
  rewrite (H 0%nat a eq_refl). apply IH. intros j e Hj. exact (H (S j) e Hj).
Qed.

(** Overwriting a slot with an entry the condition judges alike does not
    change the outcome of a scan. *)
Lemma first_slot_insert_same p arr i k e e' :
  arr !! k = Some e -> p e' = p e ->
  first_slot p (<[k := e']> arr) i = first_slot p arr i.
Proof.
  revert i k. induction arr as [|a arr IH]; intros i k; simpl.
  - rewrite lookup_nil. discriminate.
  - destruct k as [|k]; simpl.
    + intros [= ->] ->. reflexivity.
    + intros Hk Hp. destruct (p a); [reflexivity|]. now apply IH.
Qed.

Lemma lru_scan_spec arr i oldest idx :
  let r := lru_scan arr i oldest idx in
  (r = idx /\ forall j e, arr !! j = Some e -> oldest <= last_access e) \/
  (exists e, (i <= r)%nat /\ arr !! (r - i)%nat = Some e /\
     last_access e < oldest /\
     (forall j e', arr !! j = Some e' -> last_access e <= last_access e') /\
     (forall j e', (j < r - i)%nat -> arr !! j = Some e' ->
                   last_access e < last_access e')).
Proof.
  revert i oldest idx. induction arr as [|a arr IH]; intros i oldest idx; simpl.
  - left. split; [reflexivity|]. intros j e. rewrite lookup_nil. discriminate.
  - destruct (Z.ltb_spec (last_access a) oldest) as [Hlt|Hge].
    + right.
      destruct (IH (S i) (last_access a) i)
        as [[Hr Hall]|(e & Hle & Hk & Hlo & Hmin & Hfirst)].
      * rewrite Hr. exists a. replace (i - i)%nat with 0%nat by lia.
        repeat split; auto; try lia.
        intros [|j] e'; simpl; [intros [= <-]; lia|apply Hall].
      * exists e. replace (lru_scan arr (S i) (last_access a) i - i)%nat
          with (S (lru_scan arr (S i) (last_access a) i - S i)) by lia.
        repeat split; auto; try lia.
        all: intros [|j] e'; simpl; intros; simplify_eq; try lia.
        -- eapply Hmin; eassumption.
        -- eapply Hfirst; [|eassumption]. lia.
    + destruct (IH (S i) oldest idx)
        as [[Hr Hall]|(e & Hle & Hk & Hlo & Hmin & Hfirst)].
      * left. split; [exact Hr|].
        intros [|j] e'; simpl; [intros [= <-]; lia|apply Hall].
      * right. exists e. replace (lru_scan arr (S i) oldest idx - i)%nat
          with (S (lru_scan arr (S i) oldest idx - S i)) by lia.
        repeat split; auto; try lia.
        all: intros [|j] e'; simpl; intros; simplify_eq; try lia.
        -- eapply Hmin; eassumption.
        -- eapply Hfirst; [|eassumption]. lia.
Qed.

Lemma find_lru_victim_free arr :
  (exists k e, arr !! k = Some e /\ valid e = false) ->
  first_free arr (find_lru_victim arr).
Proof.
  intros (k & e & Hk & He). unfold find_lru_victim.
  destruct (first_slot _ arr 0) as [r|] eqn:Hscan.
  - apply first_slot_0_Some in Hscan as (er & Hr & Hv & Hbefore).
    exists er. apply negb_true_iff in Hv. repeat split; auto.
    intros j e' Hj Hl. specialize (Hbefore j e' Hj Hl).
    now apply negb_false_iff in Hbefore.
  - pose proof (first_slot_None _ _ _ Hscan k e Hk) as Hn.
    simpl in Hn. rewrite He in Hn. discriminate.
Qed.

Lemma find_lru_victim_full arr :
  arr <> [] ->
  (forall j e, arr !! j = Some e -> valid e = true) ->
  least_recent arr (find_lru_victim arr).
Proof.
  intros Hne Hall. unfold find_lru_victim.
  rewrite (first_slot_None_intro _ arr 0%nat)
    by (intros j e Hj; rewrite (Hall j e Hj); reflexivity).
  destruct arr as [|a arr]; [congruence|]. simpl. rewrite drop_0.
  destruct (lru_scan_spec arr 1 (last_access a) 0)
    as [[Hr Hmin]|(e & Hle & Hk & Hlo & Hmin & Hfirst)].
  - rewrite Hr. exists a. repeat split; auto.
    + intros [|j] e'; simpl; [intros [= <-]; lia|apply Hmin].
    + intros j e' Hj. lia.
  - exists e. set (r := lru_scan arr 1 (last_access a) 0) in *.
    destruct r as [|r]; [lia|]. simpl in Hk. rewrite Nat.sub_0_r in Hk.
    repeat split; auto.
    + intros [|j] e'; simpl; [intros [= <-]; lia|apply Hmin].
    + intros [|j] e' Hj; simpl; [intros [= <-]; lia|].
      apply Hfirst. lia.
Qed.

Lemma find_lru_victim_lt arr :
  arr <> [] -> (find_lru_victim arr < length arr)%nat.
Proof.
  intros Hne.
  destruct (first_slot (fun e => negb (valid e)) arr 0) as [r|] eqn:Hscan.
  - unfold find_lru_victim. rewrite Hscan.
    apply first_slot_0_Some in Hscan as (e & Hr & _).
    eapply lookup_lt_Some, Hr.
  - assert (Hall : forall j e, arr !! j = Some e -> valid e = true).
    { intros j e Hj. pose proof (first_slot_None _ _ _ Hscan j e Hj) as H.
      now apply negb_false_iff in H. }
    destruct (find_lru_victim_full arr Hne Hall) as (e & Hr & _).
    eapply lookup_lt_Some, Hr.
Qed.

(** ** Properties of the functions of tlb.c *)

Section Properties.
Context {cfg : tlb_config}.

(** *** Replacement policy *)

(** C5. Victim selection, at either level and whatever the array holds: if
    some slot is invalid the function returns the lowest-numbered invalid
    slot; if every slot is valid it returns the slot with the smallest
    [last_access], the lowest-numbered one among equals. *)
Theorem find_lru_victim_policy (s : tlb_state) :
  well_sized s -> (0 < TLB_L1_SIZE)%nat -> (0 < TLB_L2_SIZE)%nat ->
  ((exists k e, tlb_l1 s !! k = Some e /\ valid e = false) ->
   first_free (tlb_l1 s) (find_lru_victim_l1 s)) /\
  ((forall k e, tlb_l1 s !! k = Some e -> valid e = true) ->
   least_recent (tlb_l1 s) (find_lru_victim_l1 s)) /\
  ((exists k e, tlb_l2 s !! k = Some e /\ valid e = false) ->
   first_free (tlb_l2 s) (find_lru_victim_l2 s)) /\
  ((forall k e, tlb_l2 s !! k = Some e -> valid e = true) ->
   least_recent (tlb_l2 s) (find_lru_victim_l2 s)).
Proof.
  intros [Hl1 Hl2] Hpos1 Hpos2.
  assert (tlb_l1 s <> []) by (intros E; rewrite E in Hl1; simpl in Hl1; lia).
  assert (tlb_l2 s <> []) by (intros E; rewrite E in Hl2; simpl in Hl2; lia).
  unfold find_lru_victim_l1, find_lru_victim_l2.
  repeat split; auto using find_lru_victim_free, find_lru_victim_full.
Qed.

(** *** Initialisation *)

(** C7, as the code has it. After [tlb_init], whatever the state before,
    every entry of both levels is the all-zero (hence invalid) entry and the
    six statistics counters are zero; [access_counter] keeps the value it
    had, which is zero when [tlb_init] runs on the start-up state. *)
Theorem tlb_init_clears (s : tlb_state) :
  let s' := tlb_init s in
  well_sized s' /\
  (forall i e, tlb_l1 s' !! i = Some e -> e = zero_entry) /\
  (forall i e, tlb_l2 s' !! i = Some e -> e = zero_entry) /\
  tlb_l1_hits s' = 0 /\ tlb_l1_misses s' = 0 /\ tlb_l1_invalidations s' = 0 /\
  tlb_l2_hits s' = 0 /\ tlb_l2_misses s' = 0 /\ tlb_l2_invalidations s' = 0 /\
  access_counter s' = access_counter s /\
  access_counter (tlb_init boot) = 0.
Proof.
  simpl. unfold well_sized. simpl. rewrite !length_replicate.
  repeat split; auto.
  all: intros i e Hi; apply lookup_replicate in Hi as [-> _]; reflexivity.
Qed.

(** *** Invalidation *)

Lemma invalidate_frame_refl vpn arr : invalidate_frame vpn arr arr.
Proof.
  repeat split; auto.
  - intros i e Hi. exists e. repeat split; auto.
  - exists 0%nat. reflexivity.
Qed.

Lemma invalidate_frame_slot vpn arr i :
  first_slot (tlb_match vpn) arr 0 = Some i ->
  invalidate_frame vpn arr (<[i := set_valid false (arr !!! i)]> arr).
Proof.
  intros Hscan. apply first_slot_0_Some in Hscan as (e & Hi & Hm & _).
  apply tlb_match_true in Hm as [Hv Hvpn].
  rewrite (list_lookup_total_correct _ _ _ Hi).
  split; [apply length_insert|]. split; [|split].
  - intros j ej Hj Hother. destruct (decide (i = j)) as [<-|Hne].
    + rewrite Hi in Hj. injection Hj as <-. destruct Hother; congruence.
    + rewrite list_lookup_insert_ne; auto.
  - intros j ej Hj. destruct (decide (i = j)) as [<-|Hne].
    + rewrite Hi in Hj. injection Hj as <-.
      exists (set_valid false e). split.
      * apply list_lookup_insert_eq. eapply lookup_lt_Some, Hi.
      * simpl. repeat split; auto.
    + exists ej. rewrite list_lookup_insert_ne; auto. repeat split; auto.
  - exists i. intros j Hne. apply list_lookup_insert_ne. congruence.
Qed.

(** C10. [tlb_invalidate] leaves the four hit and miss counters and
    [access_counter] as they were; in each level a slot that is invalid or
    maps another page is unchanged, at most one slot changes, and a changed
    slot differs from its old content in the valid flag only. *)
Theorem tlb_invalidate_frame (s : tlb_state) (vpn : Z) :
  let s' := (tlb_invalidate s vpn).1 in
  tlb_l1_hits s' = tlb_l1_hits s /\ tlb_l1_misses s' = tlb_l1_misses s /\
  tlb_l2_hits s' = tlb_l2_hits s /\ tlb_l2_misses s' = tlb_l2_misses s /\
  access_counter s' = access_counter s /\
  invalidate_frame vpn (tlb_l1 s) (tlb_l1 s') /\
  invalidate_frame vpn (tlb_l2 s) (tlb_l2 s').
Proof.
  unfold tlb_invalidate.
  destruct (first_slot (tlb_match vpn) (tlb_l1 s) 0) as [i1|] eqn:H1;
    destruct (first_slot (tlb_match vpn) (tlb_l2 s) 0) as [i2|] eqn:H2;
    simpl; do 5 (split; [reflexivity|]); split;
    first [apply invalidate_frame_slot; assumption
          |apply invalidate_frame_refl].
Qed.

(** *** Write-back *)

(** C4. The calls to [write_back_tlb_entry] made by one call of
    [tlb_translate] or [tlb_invalidate]. A translation that hits in L1 or
    in L2 makes none, whatever is evicted from L1 or overwritten in L2 by
    the demotion. A translation that misses in both levels makes one, for
    the page address of the L2 victim as it stood before the call, when
    that victim is valid and dirty, and none otherwise. An invalidation
    makes one, for the page address of the matching L2 entry, when that
    entry is dirty, and none otherwise; the L1 entry is never written
    back. *)
Theorem write_back_calls (s : tlb_state) (va : Z) (op : op_t) (pa vpn : Z) :
  write_backs (tlb_translate s va op pa).2 =
    match hit_at s (Z.shiftr va PAGE_SIZE_BITS) with
    | Some _ => []
    | None =>
        let old := tlb_l2 s !!! find_lru_victim_l2 s in
        if valid old && dirty old
        then [page_address (physical_page_number old)]
        else []
    end /\
  write_backs (tlb_invalidate s vpn).2 =
    match first_slot (tlb_match vpn) (tlb_l2 s) 0 with
    | Some i =>
        let e := tlb_l2 s !!! i in
        if dirty e then [page_address (physical_page_number e)] else []
    | None => []
    end.
Proof.
  split.
  - unfold tlb_translate, hit_at, find_lru_victim_l2.
    destruct (first_slot _ (tlb_l1 s) 0); [reflexivity|].
    destruct (first_slot _ (tlb_l2 s) 0); [reflexivity|].
    simpl. destruct (valid _ && dirty _); reflexivity.
  - unfold tlb_invalidate.
    destruct (first_slot _ (tlb_l1 s) 0);
      destruct (first_slot _ (tlb_l2 s) 0); simpl; try reflexivity;
      destruct (dirty _); reflexivity.
Qed.

(** *** Hits *)

Lemma uint64_range x : 0 <= uint64 x < 2 ^ 64.
Proof. unfold uint64. apply Z.mod_pos_bound. lia. Qed.

Lemma uint64_small x : 0 <= x < 2 ^ 64 -> uint64 x = x.
Proof. unfold uint64. apply Z.mod_small. Qed.

Lemma uint64_succ_ne x : uint64 (uint64 x + 1) <> uint64 x.
Proof.
  pose proof (uint64_range x) as Hx. set (m := uint64 x) in *.
  destruct (Z.eq_dec m (2 ^ 64 - 1)) as [E|E].
  - rewrite E. unfold uint64. replace (2 ^ 64 - 1 + 1) with (2 ^ 64) by lia.
    rewrite Z.mod_same by lia. lia.
  - rewrite uint64_small by lia. lia.
Qed.

Lemma scan_hit vpn arr i :
  first_slot (tlb_match vpn) arr 0 = Some i ->
  exists e, arr !! i = Some e /\ arr !!! i = e /\ (i < length arr)%nat /\
            valid e = true /\ virtual_page_number e = vpn.
Proof.
  intros H. apply first_slot_0_Some in H as (e & Hi & Hm & _).
  apply tlb_match_true in Hm as [Hv Hvpn]. exists e.
  repeat split; auto using list_lookup_total_correct.
  eapply lookup_lt_Some, Hi.
Qed.

Lemma dirty_touch c op e :
  op = OP_WRITE \/ dirty e = true -> dirty (touch c op e) = true.
Proof. unfold touch. intros [->|H]; [reflexivity|]. now destruct op. Qed.

Lemma touch_fields c op e :
  valid (touch c op e) = valid e /\
  last_access (touch c op e) = c /\
  virtual_page_number (touch c op e) = virtual_page_number e /\
  physical_page_number (touch c op e) = physical_page_number e.
Proof. unfold touch. destruct op; simpl; auto. Qed.

(** The dirty flag of the slot that hit, whichever entry that slot holds
    after the call. A translation that hits, in L1 or in L2, leaves the dirty flag of
    the slot it hit set whenever the operation is a write or the flag was
    set already: a write hit sets the flag and a later read hit on the
    entry does not clear it. *)
Theorem dirty_propagation (s : tlb_state) (va : Z) (op : op_t) (pa : Z)
    (lvl : level) (i : nat) :
  hit_at s (Z.shiftr va PAGE_SIZE_BITS) = Some (lvl, i) ->
  op = OP_WRITE \/ slot_dirty (level_array lvl s) i ->
  slot_dirty (level_array lvl (tlb_translate s va op pa).1.1) i.
Proof.
  unfold hit_at, tlb_translate.
  destruct (first_slot _ (tlb_l1 s) 0) as [k|] eqn:H1.
  - intros [= <- <-] Hd. simpl in *.
    apply scan_hit in H1 as (e & Hk & Hke & Hlt & _). rewrite Hke.
    exists (touch (uint64 (access_counter s + 1)) op e).
    split; [now apply list_lookup_insert_eq|].
    apply dirty_touch. destruct Hd as [Hw|(e' & He' & Hd)]; auto.
    right. congruence.
  - destruct (first_slot _ (tlb_l2 s) 0) as [k|] eqn:H2; [|discriminate].
    intros [= <- <-] Hd. simpl in *.
    apply scan_hit in H2 as (e & Hk & Hke & Hlt & _).
    unfold record_l2_hit. rewrite Hke.
    set (c := uint64 (access_counter s + 1)).
    set (l2a := <[k := touch c op e]> (tlb_l2 s)).
    set (victim := tlb_l1 s !!! find_lru_victim (tlb_l1 s)).
    assert (Hhit : dirty (touch c op e) = true).
    { apply dirty_touch. destruct Hd as [Hw|(e' & He' & Hd)]; auto.
      right. congruence. }
    assert (Hla : (k < length l2a)%nat)
      by (unfold l2a; now rewrite length_insert).
    destruct (valid victim && dirty victim) eqn:Hvd.
    + apply andb_true_iff in Hvd as [_ Hvd].
      eexists. split.
      * apply list_lookup_insert_eq. now rewrite length_insert.
      * simpl. destruct (decide (demotion_slot l2a k = k)) as [->|Hne].
        -- now rewrite list_lookup_total_insert_eq.
        -- rewrite list_lookup_total_insert_ne by exact Hne.
           unfold l2a. now rewrite list_lookup_total_insert_eq.
    + eexists. split; [now apply list_lookup_insert_eq|]. simpl.
      unfold l2a. now rewrite list_lookup_total_insert_eq.
Qed.

(** C3, as the code has it. When a translation misses in both levels, the
    entry written into the L2 victim slot is stamped with the first
    increment of [access_counter] and the entry written into the L1 victim
    slot with a second increment: the two [last_access] values are never
    the same. *)
Theorem miss_fill_timestamps (s : tlb_state) (va : Z) (op : op_t) (pa : Z) :
  well_sized s -> (0 < TLB_L1_SIZE)%nat -> (0 < TLB_L2_SIZE)%nat ->
  hit_at s (Z.shiftr va PAGE_SIZE_BITS) = None ->
  let s' := (tlb_translate s va op pa).1.1 in
  exists e1 e2,
    tlb_l1 s' !! find_lru_victim_l1 s = Some e1 /\
    tlb_l2 s' !! find_lru_victim_l2 s = Some e2 /\
    last_access e2 = uint64 (access_counter s + 1) /\
    last_access e1 = uint64 (last_access e2 + 1) /\
    last_access e1 <> last_access e2.
Proof.
  intros [Hl1 Hl2] Hpos1 Hpos2. unfold hit_at, tlb_translate.
  destruct (first_slot _ (tlb_l1 s) 0); [discriminate|].
  destruct (first_slot _ (tlb_l2 s) 0); [discriminate|]. intros _. simpl.
  assert (tlb_l1 s <> []) by (intros E; rewrite E in Hl1; simpl in Hl1; lia).
  assert (tlb_l2 s <> []) by (intros E; rewrite E in Hl2; simpl in Hl2; lia).
  unfold find_lru_victim_l1, find_lru_victim_l2.
  do 2 eexists. split; [|split].
  - apply list_lookup_insert_eq. now apply find_lru_victim_lt.
  - apply list_lookup_insert_eq. now apply find_lru_victim_lt.
  - simpl. repeat split; auto. apply uint64_succ_ne.
Qed.

(** *** The invariant of the hierarchy *)

Lemma run_app s cs1 cs2 : run (run s cs1) cs2 = run s (cs1 ++ cs2).
Proof. unfold run. now rewrite fold_left_app. Qed.

Lemma stamped_by_mono c c' arr :
  c <= c' -> stamped_by c arr -> stamped_by c' arr.
Proof.
  intros Hle Harr. eapply Forall_impl; [exact Harr|].
  intros e He. simpl in *. lia.
Qed.

Lemma stamped_by_total c arr i :
  0 <= c -> stamped_by c arr -> last_access (arr !!! i) <= c.
Proof.
  intros Hc Harr. rewrite list_lookup_total_alt.
  destruct (arr !! i) as [e|] eqn:Hi; simpl; [|exact Hc].
  exact (proj1 (Forall_lookup _ _) Harr i e Hi).
Qed.

Lemma tlb_match_false_valid vpn e :
  tlb_match vpn e = false -> valid e = true -> virtual_page_number e <> vpn.
Proof.
  unfold tlb_match. intros H Hv. rewrite Hv in H. simpl in H.
  now apply Z.eqb_neq.
Qed.

Lemma miss_no_map vpn arr :
  first_slot (tlb_match vpn) arr 0 = None -> ~ maps_vpn arr vpn.
Proof.
  intros Hscan (k & e & Hk & Hv & Hvpn).
  pose proof (first_slot_None _ _ _ Hscan k e Hk) as Hm.
  now apply (tlb_match_false_valid _ _ Hm Hv).
Qed.

Lemma maps_vpn_insert arr i e :
  (i < length arr)%nat -> valid e = true ->
  maps_vpn (<[i := e]> arr) (virtual_page_number e).
Proof.
  intros Hi Hv. exists i, e. split; [now apply list_lookup_insert_eq|auto].
Qed.

Lemma maps_vpn_insert_same arr i e e' v :
  arr !! i = Some e -> valid e' = valid e ->
  virtual_page_number e' = virtual_page_number e ->
  maps_vpn arr v -> maps_vpn (<[i := e']> arr) v.
Proof.
  intros Hi Hv Hvpn (k & ek & Hk & Hvk & Hvpnk).
  destruct (decide (i = k)) as [<-|Hne].
  - exists i, e'. rewrite Hi in Hk. injection Hk as <-.
    split; [apply list_lookup_insert_eq; eapply lookup_lt_Some, Hi|].
    split; congruence.
  - exists k, ek. now rewrite list_lookup_insert_ne.
Qed.

Lemma tlb_invalidate_arrays s vpn :
  tlb_l1 (tlb_invalidate s vpn).1 = clear_first_match vpn (tlb_l1 s) /\
  tlb_l2 (tlb_invalidate s vpn).1 = clear_first_match vpn (tlb_l2 s) /\
  access_counter (tlb_invalidate s vpn).1 = access_counter s.
Proof.
  unfold tlb_invalidate, clear_first_match.
  destruct (first_slot _ (tlb_l1 s) 0); destruct (first_slot _ (tlb_l2 s) 0);
    simpl; auto.
Qed.

Lemma clear_first_match_length vpn arr :
  length (clear_first_match vpn arr) = length arr.
Proof.
  unfold clear_first_match. destruct (first_slot _ arr 0); [|reflexivity].
  apply length_insert.
Qed.

Lemma clear_first_match_stamped c vpn arr :
  0 <= c -> stamped_by c arr -> stamped_by c (clear_first_match vpn arr).
Proof.
  intros Hc Harr. unfold clear_first_match.
  destruct (first_slot _ arr 0); [|exact Harr].
  apply Forall_insert; [exact Harr|]. simpl. now apply stamped_by_total.
Qed.

Lemma clear_first_match_keeps vpn arr v :
  v <> vpn -> maps_vpn arr v -> maps_vpn (clear_first_match vpn arr) v.
Proof.
  intros Hne (k & e & Hk & Hv & Hvpn). unfold clear_first_match.
  destruct (first_slot _ arr 0) as [i|] eqn:Hscan; [|now exists k, e].
  apply scan_hit in Hscan as (ei & Hi & _ & _ & _ & Hvpni).
  exists k, e. split; [|auto]. rewrite list_lookup_insert_ne; [exact Hk|].
  intros ->. congruence.
Qed.

Lemma clear_first_match_head vpn arr e :
  clear_first_match vpn arr !! 0%nat = Some e -> valid e = true ->
  arr !! 0%nat = Some e /\ virtual_page_number e <> vpn.
Proof.
  unfold clear_first_match.
  destruct (first_slot _ arr 0) as [i|] eqn:Hscan.
  - pose proof (scan_hit _ _ _ Hscan) as (ei & Hi & Hie & Hlt & _).
    apply first_slot_0_Some in Hscan as (_ & _ & _ & Hbefore).
    destruct i as [|i].
    + rewrite list_lookup_insert_eq by exact Hlt. intros [= <-]. discriminate.
    + rewrite list_lookup_insert_ne by discriminate. intros H0 Hv.
      split; [exact H0|].
      apply tlb_match_false_valid; [|exact Hv].
      apply (Hbefore 0%nat); [lia|exact H0].
  - intros H0 Hv. split; [exact H0|].
    apply tlb_match_false_valid; [|exact Hv].
    exact (first_slot_None _ _ _ Hscan 0%nat e H0).
Qed.

Lemma boot_inv : hierarchy_inv 0 boot.
Proof.
  unfold hierarchy_inv, well_sized, timestamps_bounded, stamped_by, boot.
  simpl. rewrite !length_replicate. repeat split; try lia.
  1,2: apply Forall_replicate; simpl; lia.
  intros _ e He Hv. apply lookup_replicate in He as [-> _]. discriminate.
Qed.

Lemma tlb_init_inv n s :
  hierarchy_inv n s -> hierarchy_inv (n + 1) (tlb_init s).
Proof.
  intros (_ & (Hc0 & _ & _) & Hcn & _).
  unfold hierarchy_inv, well_sized, timestamps_bounded, stamped_by, tlb_init.
  simpl. rewrite !length_replicate. repeat split; try lia.
  1,2: apply Forall_replicate; simpl; lia.
  intros _ e He Hv. apply lookup_replicate in He as [-> _]. discriminate.
Qed.

Lemma tlb_invalidate_inv n s vpn :
  hierarchy_inv n s -> hierarchy_inv (n + 1) (tlb_invalidate s vpn).1.
Proof.
  intros ([Hs1 Hs2] & (Hc0 & Ht1 & Ht2) & Hcn & Hincl).
  destruct (tlb_invalidate_arrays s vpn) as (E1 & E2 & Ec).
  unfold hierarchy_inv, well_sized, timestamps_bounded.
  rewrite E1, E2, Ec, !clear_first_match_length.
  repeat split; auto using clear_first_match_stamped; try lia.
  intros Hone e He Hv.
  apply clear_first_match_head in He as [He Hne]; [|exact Hv].
  apply clear_first_match_keeps; auto.
Qed.

Lemma find_lru_victim_cases arr :
  arr <> [] ->
  first_free arr (find_lru_victim arr) \/
  ((forall j e, arr !! j = Some e -> valid e = true) /\
   least_recent arr (find_lru_victim arr)).
Proof.
  intros Hne.
  destruct (first_slot (fun e => negb (valid e)) arr 0) as [r|] eqn:Hscan.
  - left. apply find_lru_victim_free.
    apply first_slot_0_Some in Hscan as (e & Hr & Hv & _).
    exists r, e. split; [exact Hr|]. now apply negb_true_iff in Hv.
  - right.
    assert (Hall : forall j e, arr !! j = Some e -> valid e = true).
    { intros j e Hj. pose proof (first_slot_None _ _ _ Hscan j e Hj) as H.
      now apply negb_false_iff in H. }
    split; [exact Hall|]. now apply find_lru_victim_full.
Qed.

Lemma nonempty_of_length (arr : list tlb_entry_t) n :
  length arr = n -> (0 < n)%nat -> arr <> [].
Proof. intros Hlen Hn ->. simpl in Hlen. lia. Qed.

(** As long as the counter has not wrapped, the L2 slot that has just hit
    carries the newest timestamp of a full L2, so the victim search never
    returns it and the re-scan is not entered. *)
Lemma demotion_slot_spares_hit n s vpn op i :
  hierarchy_inv n s -> 0 <= n -> 2 * n + 2 < 2 ^ 64 ->
  first_slot (tlb_match vpn) (tlb_l1 s) 0 = None ->
  first_slot (tlb_match vpn) (tlb_l2 s) 0 = Some i ->
  demotion_slot (record_l2_hit s i op) i <> i.
Proof.
  intros ([Hs1 Hs2] & (Hc0 & Ht1 & Ht2) & Hcn & Hincl) Hn Hbound H1 H2.
  apply scan_hit in H2 as (e & Hi & Hie & Hlt & Hv & Hvpn).
  assert (Hc : uint64 (access_counter s + 1) = access_counter s + 1)
    by (apply uint64_small; lia).
  unfold record_l2_hit. rewrite Hie, Hc.
  set (hit := touch (access_counter s + 1) op e).
  set (l2a := <[i := hit]> (tlb_l2 s)).
  destruct (touch_fields (access_counter s + 1) op e) as (Hhv & Hhla & _).
  assert (Hhit : l2a !! i = Some hit) by now apply list_lookup_insert_eq.
  assert (Hne : l2a <> []) by (intros E; rewrite E in Hhit; discriminate).
  assert (Hvictim : find_lru_victim l2a <> i).
  { intros Hr.
    destruct (find_lru_victim_cases l2a Hne)
      as [(er & Her & Hinv & _)|[_ (er & Her & Hmin & _)]];
      rewrite Hr, Hhit in Her; injection Her as <-.
    - fold hit in Hhv. congruence.
    - assert (Hother : exists k ek, k <> i /\ tlb_l2 s !! k = Some ek).
      { destruct (tlb_l2 s) as [|a [|b rest]] eqn:El2.
        - simpl in Hlt. lia.
        - exfalso. apply (miss_no_map _ _ H1). rewrite <- Hvpn.
          simpl in Hlt. assert (i = 0%nat) as -> by lia.
          apply Hincl; [simpl in Hs2; congruence| |exact Hv].
          exact Hi.
        - destruct i as [|i]; [exists 1%nat, b|exists 0%nat, a]; split;
            auto; discriminate. }
      destruct Hother as (k & ek & Hki & Hk).
      assert (Hk' : l2a !! k = Some ek)
        by (unfold l2a; rewrite list_lookup_insert_ne; auto).
      pose proof (Hmin k ek Hk') as Hle.
      pose proof (proj1 (Forall_lookup _ _) Ht2 k ek Hk) as Hold.
      simpl in Hold. fold hit in Hhla. lia. }
  unfold demotion_slot.
  destruct (Nat.eqb_spec (find_lru_victim l2a) i); [contradiction|assumption].
Qed.

Lemma set_last_access_touch c op e :
  set_last_access c (touch c op e) = touch c op e.
Proof. unfold touch. now destruct op. Qed.

(** What an L2 hit at slot [i] leaves behind when the demotion goes to
    another slot: the entry that hit, refreshed, sits in both levels and its
    frame number makes the result. *)
Lemma l2_hit_outcome s i op off e :
  tlb_l2 s !! i = Some e -> tlb_l1 s <> [] ->
  demotion_slot (record_l2_hit s i op) i <> i ->
  let hit := touch (uint64 (access_counter s + 1)) op e in
  let out := translate_l2_hit s i op off in
  tlb_l1 out.1.1 !! find_lru_victim (tlb_l1 s) = Some hit /\
  tlb_l2 out.1.1 !! i = Some hit /\
  out.1.2 = Z.lor (page_address (physical_page_number e)) off.
Proof.
  intros Hi Hne Hd hit out.
  assert (Hlt : (i < length (tlb_l2 s))%nat) by (eapply lookup_lt_Some, Hi).
  assert (Hie : tlb_l2 s !!! i = e) by now apply list_lookup_total_correct.
  assert (Ha : record_l2_hit s i op !!! i = hit).
  { unfold record_l2_hit. rewrite Hie.
    now rewrite list_lookup_total_insert_eq. }
  assert (Hla : (i < length (record_l2_hit s i op))%nat)
    by (unfold record_l2_hit; now rewrite length_insert).
  subst out. unfold translate_l2_hit. cbn [fst snd tlb_l1 tlb_l2].
  set (l2a := record_l2_hit s i op) in *.
  set (victim := tlb_l1 s !!! find_lru_victim (tlb_l1 s)).
  set (l2b := if valid victim && dirty victim
              then <[demotion_slot l2a i := victim]> l2a else l2a).
  assert (Hb : l2b !!! i = hit).
  { unfold l2b. destruct (valid victim && dirty victim); [|exact Ha].
    now rewrite list_lookup_total_insert_ne. }
  assert (Hlb : (i < length l2b)%nat).
  { unfold l2b. destruct (valid victim && dirty victim); [|exact Hla].
    now rewrite length_insert. }
  rewrite Hb.
  assert (Hagain : set_last_access (uint64 (access_counter s + 1)) hit = hit)
    by apply set_last_access_touch.
  rewrite Hagain. split; [|split].
  - apply list_lookup_insert_eq. now apply find_lru_victim_lt.
  - now apply list_lookup_insert_eq.
  - rewrite list_lookup_total_insert_eq by exact Hlb.
    destruct (touch_fields (uint64 (access_counter s + 1)) op e)
      as (_ & _ & _ & Hppn). fold hit in Hppn. now rewrite Hppn.
Qed.

Lemma stamped_by_insert c arr i e :
  stamped_by c arr -> last_access e <= c -> stamped_by c (<[i := e]> arr).
Proof. intros Harr He. now apply Forall_insert. Qed.

Lemma l2_hit_excluded n s vpn i :
  hierarchy_inv n s -> TLB_L2_SIZE = 1%nat ->
  first_slot (tlb_match vpn) (tlb_l1 s) 0 = None ->
  first_slot (tlb_match vpn) (tlb_l2 s) 0 = Some i -> False.
Proof.
  intros ([Hs1 Hs2] & _ & _ & Hincl) Hone H1 H2.
  apply scan_hit in H2 as (e & Hi & _ & Hlt & Hv & Hvpn).
  assert (i = 0%nat) as -> by lia.
  apply (miss_no_map _ _ H1). rewrite <- Hvpn. now apply Hincl.
Qed.

Lemma tlb_translate_inv n s va op pa :
  (0 < TLB_L1_SIZE)%nat -> (0 < TLB_L2_SIZE)%nat ->
  hierarchy_inv n s -> 0 <= n -> 2 * n + 2 < 2 ^ 64 ->
  hierarchy_inv (n + 1) (tlb_translate s va op pa).1.1.
Proof.
  intros Hpos1 Hpos2 Hinv Hn Hbound.
  pose proof Hinv as ([Hs1 Hs2] & (Hc0 & Ht1 & Ht2) & Hcn & Hincl).
  assert (Hc1 : uint64 (access_counter s + 1) = access_counter s + 1)
    by (apply uint64_small; lia).
  assert (Hc2 : uint64 (access_counter s + 1 + 1) = access_counter s + 2)
    by (rewrite uint64_small; lia).
  assert (Ht1' : stamped_by (access_counter s + 1) (tlb_l1 s))
    by (eapply stamped_by_mono; [|exact Ht1]; lia).
  assert (Ht2' : stamped_by (access_counter s + 1) (tlb_l2 s))
    by (eapply stamped_by_mono; [|exact Ht2]; lia).
  unfold tlb_translate.
  destruct (first_slot _ (tlb_l1 s) 0) as [i|] eqn:H1;
    [|destruct (first_slot _ (tlb_l2 s) 0) as [i|] eqn:H2].
  - (* L1 hit *)
    apply scan_hit in H1 as (e & Hi & Hie & Hlt & Hv & Hvpn).
    unfold translate_l1_hit. rewrite Hc1, Hie.
    destruct (touch_fields (access_counter s + 1) op e)
      as (Htv & Htla & Htvpn & _).
    unfold hierarchy_inv, well_sized, timestamps_bounded.
    cbn [fst snd tlb_l1 tlb_l2 access_counter]. rewrite length_insert.
    repeat split; auto; try lia.
    + apply stamped_by_insert; [exact Ht1'|lia].
    + intros Hone e0 He0 Hv0.
      eapply maps_vpn_insert_same; eauto.
  - (* L2 hit *)
    unfold translate_l2_hit, record_l2_hit. rewrite Hc1.
    set (c := access_counter s + 1) in *.
    set (l2a := <[i := touch c op (tlb_l2 s !!! i)]> (tlb_l2 s)).
    set (victim := tlb_l1 s !!! find_lru_victim (tlb_l1 s)).
    set (l2b := if valid victim && dirty victim
                then <[demotion_slot l2a i := victim]> l2a else l2a).
    assert (Hta : stamped_by c l2a).
    { apply stamped_by_insert; [exact Ht2'|].
      destruct (touch_fields c op (tlb_l2 s !!! i)) as (_ & -> & _). lia. }
    assert (Htb : stamped_by c l2b).
    { unfold l2b. destruct (valid victim && dirty victim); [|exact Hta].
      apply stamped_by_insert; [exact Hta|].
      apply stamped_by_total; [lia|exact Ht1']. }
    assert (Hlb : length l2b = length (tlb_l2 s)).
    { unfold l2b, l2a. destruct (valid victim && dirty victim);
        now rewrite !length_insert. }
    unfold hierarchy_inv, well_sized, timestamps_bounded.
    cbn [fst snd tlb_l1 tlb_l2 access_counter]. rewrite !length_insert, Hlb.
    repeat split; auto; try lia.
    + apply stamped_by_insert; [exact Ht1'|].
      apply stamped_by_total; [lia|exact Htb].
    + apply stamped_by_insert; [exact Htb|]. simpl. lia.
    + intros Hone. exfalso. eapply l2_hit_excluded; eauto.
  - (* miss in both levels *)
    unfold translate_miss. rewrite Hc1, Hc2.
    assert (Hne1 : tlb_l1 s <> []) by (eapply nonempty_of_length; eauto).
    assert (Hne2 : tlb_l2 s <> []) by (eapply nonempty_of_length; eauto).
    pose proof (find_lru_victim_lt _ Hne1) as Hv1.
    pose proof (find_lru_victim_lt _ Hne2) as Hv2.
    unfold hierarchy_inv, well_sized, timestamps_bounded.
    cbn [fst snd tlb_l1 tlb_l2 access_counter]. rewrite !length_insert.
    repeat split; auto; try lia.
    + apply stamped_by_insert; [eapply stamped_by_mono; [|exact Ht1]; lia|].
      simpl. lia.
    + apply stamped_by_insert; [eapply stamped_by_mono; [|exact Ht2]; lia|].
      simpl. lia.
    + intros Hone e He Hv.
      assert (find_lru_victim (tlb_l2 s) = 0%nat) as Hz by lia.
      rewrite Hz, list_lookup_insert_eq in He by lia.
      injection He as <-.
      exact (maps_vpn_insert (tlb_l1 s) _
               (TlbEntry true (is_write op) (access_counter s + 2)
                  (Z.shiftr va PAGE_SIZE_BITS) (Z.shiftr pa PAGE_SIZE_BITS))
               Hv1 eq_refl).
Qed.

Lemma exec_inv n s c :
  (0 < TLB_L1_SIZE)%nat -> (0 < TLB_L2_SIZE)%nat ->
  hierarchy_inv n s -> 0 <= n -> 2 * n + 2 < 2 ^ 64 ->
  hierarchy_inv (n + 1) (exec s c).
Proof.
  intros Hpos1 Hpos2 Hinv Hn Hbound. destruct c as [|va op pa|vpn]; simpl.
  - now apply tlb_init_inv.
  - now apply tlb_translate_inv.
  - now apply tlb_invalidate_inv.
Qed.

Lemma run_inv cs : forall n s,
  (0 < TLB_L1_SIZE)%nat -> (0 < TLB_L2_SIZE)%nat ->
  hierarchy_inv n s -> 0 <= n -> 2 * (n + Z.of_nat (length cs)) < 2 ^ 64 ->
  hierarchy_inv (n + Z.of_nat (length cs)) (run s cs).
Proof.
  induction cs as [|c cs IH]; intros n s Hpos1 Hpos2 Hinv Hn Hbound.
  - simpl. now rewrite Z.add_0_r.
  - change (run s (c :: cs)) with (run (exec s c) cs).
    replace (n + Z.of_nat (length (c :: cs)))
      with (n + 1 + Z.of_nat (length cs)) in * by (simpl length; lia).
    apply IH; auto; try lia. apply exec_inv; auto. lia.
Qed.

(** The states reached from start-up before the counter can wrap. *)
Lemma reachable_inv cs :
  (0 < TLB_L1_SIZE)%nat -> (0 < TLB_L2_SIZE)%nat -> no_wraparound cs ->
  hierarchy_inv (Z.of_nat (length cs)) (run boot cs) /\
  2 * Z.of_nat (length cs) + 2 < 2 ^ 64.
Proof.
  intros Hpos1 Hpos2 Hcs. unfold no_wraparound in Hcs. split; [|lia].
  apply (run_inv cs 0 boot); auto using boot_inv; lia.
Qed.

(** *** Promotion and hit correctness *)

(** Promotion before the counter wraps. In a state reached from start-up by calls of
    [tlb_init], [tlb_translate] and [tlb_invalidate] too few for the 64-bit
    [access_counter] to have wrapped, when a translation misses in L1 and
    hits in L2 at slot [i], the slot chosen to receive a demoted L1 victim
    is not [i], the entry that hit is still in slot [i] of L2 after the
    call, and the page it maps is held by a valid L1 entry. *)
Theorem promotion_keeps_hit_entry (cs : list call) (va : Z) (op : op_t)
    (pa : Z) (i : nat) :
  (0 < TLB_L1_SIZE)%nat -> (0 < TLB_L2_SIZE)%nat -> no_wraparound cs ->
  let s := run boot cs in
  let vpn := Z.shiftr va PAGE_SIZE_BITS in
  let s' := (tlb_translate s va op pa).1.1 in
  hit_at s vpn = Some (L2, i) ->
  demotion_slot (record_l2_hit s i op) i <> i /\
  (exists e, tlb_l2 s' !! i = Some e /\ valid e = true /\
             virtual_page_number e = vpn) /\
  maps_vpn (tlb_l1 s') vpn.
Proof.
  intros Hpos1 Hpos2 Hcs s vpn s'.
  destruct (reachable_inv cs Hpos1 Hpos2 Hcs) as [Hinv Hbound].
  fold s in Hinv. subst s'. unfold hit_at, tlb_translate. fold vpn.
  destruct (first_slot _ (tlb_l1 s) 0) eqn:H1; [discriminate|].
  destruct (first_slot _ (tlb_l2 s) 0) as [k|] eqn:H2; [|discriminate].
  intros [= <-].
  assert (Hd : demotion_slot (record_l2_hit s k op) k <> k).
  { eapply demotion_slot_spares_hit; eauto. lia. }
  split; [exact Hd|].
  pose proof (scan_hit _ _ _ H2) as (e & Hk & _ & _ & Hv & Hvpn).
  assert (Hne1 : tlb_l1 s <> []).
  { destruct Hinv as ([Hs1 _] & _). eapply nonempty_of_length; eauto. }
  destruct (l2_hit_outcome s k op (Z.land va page_mask) e Hk Hne1 Hd)
    as (Hl1 & Hl2 & _).
  destruct (touch_fields (uint64 (access_counter s + 1)) op e)
    as (Htv & _ & Htvpn & _).
  split.
  - eexists. split; [exact Hl2|]. split; congruence.
  - eexists _, _. split; [exact Hl1|]. split; congruence.
Qed.

(** Hit results before the counter wraps. A translation that hits returns
    [(ppn << PAGE_SIZE_BITS) | (va & page_mask)] where [ppn] is the frame
    number of the entry that produced the hit, a valid entry of that level
    that maps page [va >> PAGE_SIZE_BITS]: for a hit in L1 in every state,
    and for a hit in L2 after an L1 miss in every state reached from
    start-up by calls too few for the 64-bit [access_counter] to have
    wrapped. *)
Theorem hit_correctness (s : tlb_state) (va : Z) (op : op_t) (pa : Z)
    (lvl : level) (i : nat) :
  (0 < TLB_L1_SIZE)%nat -> (0 < TLB_L2_SIZE)%nat ->
  (lvl = L2 -> exists cs, no_wraparound cs /\ s = run boot cs) ->
  hit_at s (Z.shiftr va PAGE_SIZE_BITS) = Some (lvl, i) ->
  exists e, level_array lvl s !! i = Some e /\ valid e = true /\
    virtual_page_number e = Z.shiftr va PAGE_SIZE_BITS /\
    (tlb_translate s va op pa).1.2 =
      Z.lor (page_address (physical_page_number e)) (Z.land va page_mask).
Proof.
  intros Hpos1 Hpos2 Hreach. unfold hit_at, tlb_translate.
  destruct (first_slot _ (tlb_l1 s) 0) as [k|] eqn:H1.
  - intros [= <- <-].
    apply scan_hit in H1 as (e & Hk & Hke & _ & Hv & Hvpn).
    exists e. repeat split; auto. unfold translate_l1_hit. rewrite Hke.
    cbn [fst snd].
    destruct (touch_fields (uint64 (access_counter s + 1)) op e)
      as (_ & _ & _ & ->). reflexivity.
  - destruct (first_slot _ (tlb_l2 s) 0) as [k|] eqn:H2; [|discriminate].
    intros [= <- <-].
    destruct (Hreach eq_refl) as (cs & Hcs & ->).
    destruct (reachable_inv cs Hpos1 Hpos2 Hcs) as [Hinv Hbound].
    set (s := run boot cs) in *.
    assert (Hd : demotion_slot (record_l2_hit s k op) k <> k).
    { eapply demotion_slot_spares_hit; eauto. lia. }
    pose proof (scan_hit _ _ _ H2) as (e & Hk & _ & _ & Hv & Hvpn).
    assert (Hne1 : tlb_l1 s <> []).
    { destruct Hinv as ([Hs1 _] & _). eapply nonempty_of_length; eauto. }
    destruct (l2_hit_outcome s k op (Z.land va page_mask) e Hk Hne1 Hd)
      as (_ & _ & Hres).
    exists e. repeat split; auto.
Qed.

(** *** Repeated hits on one L1 slot *)

Lemma uint64_succ x n : uint64 (uint64 (x + n) + 1) = uint64 (x + (n + 1)).
Proof.
  unfold uint64. rewrite Z.add_mod_idemp_l by lia. f_equal. lia.
Qed.

Lemma after_l1_hits_exec s k n va pa :
  first_slot (tlb_match (Z.shiftr va PAGE_SIZE_BITS)) (tlb_l1 s) 0 = Some k ->
  exec (after_l1_hits s k n) (call_translate va OP_READ pa)
  = after_l1_hits s k (n + 1).
Proof.
  intros Hscan. pose proof (scan_hit _ _ _ Hscan) as (e & Hk & Hke & Hlt & _).
  unfold exec, tlb_translate.
  assert (Hscan' : first_slot (tlb_match (Z.shiftr va PAGE_SIZE_BITS))
                     (tlb_l1 (after_l1_hits s k n)) 0 = Some k).
  { unfold after_l1_hits. cbn [tlb_l1]. rewrite <- Hscan.
    eapply first_slot_insert_same; [exact Hk|]. rewrite Hke. reflexivity. }
  rewrite Hscan'. unfold translate_l1_hit, after_l1_hits.
  cbn [fst snd tlb_l1 tlb_l2 tlb_l1_hits tlb_l1_misses tlb_l1_invalidations
       tlb_l2_hits tlb_l2_misses tlb_l2_invalidations access_counter].
  rewrite list_lookup_total_insert_eq by exact Hlt.
  rewrite list_insert_insert_eq, !uint64_succ. reflexivity.
Qed.

Lemma after_l1_hits_run s k va pa m : forall n,
  first_slot (tlb_match (Z.shiftr va PAGE_SIZE_BITS)) (tlb_l1 s) 0 = Some k ->
  run (after_l1_hits s k n) (repeat (call_translate va OP_READ pa) m)
  = after_l1_hits s k (n + Z.of_nat m).
Proof.
  induction m as [|m IH]; intros n Hscan.
  - simpl. now rewrite Z.add_0_r.
  - change (repeat (call_translate va OP_READ pa) (S m))
      with (call_translate va OP_READ pa
              :: repeat (call_translate va OP_READ pa) m).
    change (run ?s0 (?c :: ?cs)) with (run (exec s0 c) cs).
    rewrite after_l1_hits_exec by exact Hscan. rewrite IH by exact Hscan.
    f_equal. lia.
Qed.

(** *** Duplicates in L1 *)

Lemma no_duplicates_insert_fresh arr i e :
  no_duplicates arr ->
  (valid e = true -> ~ maps_vpn arr (virtual_page_number e)) ->
  no_duplicates (<[i := e]> arr).
Proof.
  intros Hnd Hfresh j k ej ek Hj Hk Hvj Hvk Hvpn.
  apply list_lookup_insert_Some in Hj as [(Eij & Eej & _)|[Hij Hj]];
    apply list_lookup_insert_Some in Hk as [(Eik & Eek & _)|[Hik Hk]].
  - congruence.
  - subst j ej. exfalso. apply Hfresh; [exact Hvj|]. exists k, ek. auto.
  - subst k ek. exfalso. apply Hfresh; [exact Hvk|]. exists j, ej. auto.
  - eapply Hnd; eauto.
Qed.

Lemma no_duplicates_insert_same arr i e e' :
  arr !! i = Some e ->
  (valid e' = true ->
   valid e = true /\ virtual_page_number e' = virtual_page_number e) ->
  no_duplicates arr -> no_duplicates (<[i := e']> arr).
Proof.
  intros Hi Hsame Hnd j k ej ek Hj Hk Hvj Hvk Hvpn.
  apply list_lookup_insert_Some in Hj as [(Eij & Eej & _)|[Hij Hj]];
    apply list_lookup_insert_Some in Hk as [(Eik & Eek & _)|[Hik Hk]].
  - congruence.
  - subst j ej. destruct (Hsame Hvj) as [Hv Hp].
    apply (Hnd i k e ek Hi Hk Hv Hvk). congruence.
  - subst k ek. destruct (Hsame Hvk) as [Hv Hp].
    apply (Hnd j i ej e Hj Hi Hvj Hv). congruence.
  - eapply Hnd; eauto.
Qed.

Lemma clear_first_match_no_duplicates vpn arr :
  no_duplicates arr -> no_duplicates (clear_first_match vpn arr).
Proof.
  intros Hnd. unfold clear_first_match.
  destruct (first_slot _ arr 0) as [i|] eqn:Hscan; [|exact Hnd].
  apply scan_hit in Hscan as (e & Hi & -> & _).
  apply (no_duplicates_insert_same _ _ e _ Hi); [|exact Hnd]. discriminate.
Qed.

(** Once its first match is cleared, an array without duplicates no longer
    maps the page. *)
Lemma clear_first_match_complete vpn arr :
  no_duplicates arr -> ~ maps_vpn (clear_first_match vpn arr) vpn.
Proof.
  intros Hnd (k & ek & Hk & Hv & Hvpn). unfold clear_first_match in Hk.
  destruct (first_slot _ arr 0) as [i|] eqn:Hscan.
  - apply scan_hit in Hscan as (e & Hi & Hie & _ & Hve & Hvpne).
    apply list_lookup_insert_Some in Hk as [(-> & <- & _)|[Hik Hk]].
    + discriminate.
    + apply Hik. apply (Hnd i k e ek Hi Hk Hve Hv). congruence.
  - apply (miss_no_map _ _ Hscan). now exists k, ek.
Qed.

Lemma tlb_translate_l1_no_duplicates s va op pa :
  tlb_l1 s <> [] -> no_duplicates (tlb_l1 s) ->
  no_duplicates (tlb_l1 (tlb_translate s va op pa).1.1).
Proof.
  intros Hne Hnd. unfold tlb_translate.
  destruct (first_slot _ (tlb_l1 s) 0) as [i|] eqn:H1;
    [|destruct (first_slot _ (tlb_l2 s) 0) as [i|] eqn:H2].
  - apply scan_hit in H1 as (e & Hi & Hie & _).
    unfold translate_l1_hit. cbn [fst snd tlb_l1]. rewrite Hie.
    destruct (touch_fields (uint64 (access_counter s + 1)) op e)
      as (Hv & _ & Hp & _).
    apply (no_duplicates_insert_same _ _ e _ Hi); [|exact Hnd].
    intros Hv'. split; congruence.
  - apply scan_hit in H2 as (e & Hi & Hie & Hlt & Hv & Hvpn).
    unfold translate_l2_hit. cbn [fst snd tlb_l1].
    set (l2a := record_l2_hit s i op).
    set (l1_pos := find_lru_victim (tlb_l1 s)).
    set (victim := tlb_l1 s !!! l1_pos).
    assert (Hvictim : tlb_l1 s !! l1_pos = Some victim).
    { apply list_lookup_lookup_total_lt. now apply find_lru_victim_lt. }
    assert (Ha : l2a !!! i
                 = touch (uint64 (access_counter s + 1)) op e).
    { unfold l2a, record_l2_hit. rewrite Hie.
      now rewrite list_lookup_total_insert_eq. }
    assert (Hfresh : no_duplicates (<[l1_pos := l2a !!! i]> (tlb_l1 s))).
    { apply no_duplicates_insert_fresh; [exact Hnd|]. rewrite Ha.
      destruct (touch_fields (uint64 (access_counter s + 1)) op e)
        as (_ & _ & -> & _).
      intros _. rewrite Hvpn. now apply miss_no_map. }
    destruct (valid victim && dirty victim); [|exact Hfresh].
    destruct (decide (demotion_slot l2a i = i)) as [->|Hd].
    + rewrite list_lookup_total_insert_eq
        by (unfold l2a, record_l2_hit; now rewrite length_insert).
      now rewrite list_insert_id.
    + now rewrite list_lookup_total_insert_ne.
  - unfold translate_miss. cbn [fst snd tlb_l1].
    apply no_duplicates_insert_fresh; [exact Hnd|]. simpl. intros _.
    now apply miss_no_map.
Qed.

(** The L1 half of the no-duplicate invariant holds in every state reached
    from start-up, wrapped counter or not. *)
Lemma l1_no_duplicates cs :
  (0 < TLB_L1_SIZE)%nat ->
  no_duplicates (tlb_l1 (run boot cs)) /\
  length (tlb_l1 (run boot cs)) = TLB_L1_SIZE.
Proof.
  intros Hpos. induction cs as [|c cs IH] using rev_ind.
  - unfold boot. simpl. rewrite length_replicate. split; [|reflexivity].
    intros j k ej ek Hj _ Hv. apply lookup_replicate in Hj as [-> _].
    discriminate.
  - rewrite <- run_app. destruct IH as [Hnd Hlen].
    set (s := run boot cs) in *. change (run s [c]) with (exec s c).
    destruct c as [|va op pa|vpn]; simpl.
    + rewrite length_replicate. split; [|reflexivity].
      intros j k ej ek Hj _ Hv. apply lookup_replicate in Hj as [-> _].
      discriminate.
    + split.
      * apply tlb_translate_l1_no_duplicates; [|exact Hnd].
        eapply nonempty_of_length; eauto.
      * unfold tlb_translate.
        destruct (first_slot _ (tlb_l1 s) 0);
          [|destruct (first_slot _ (tlb_l2 s) 0)];
          cbn [fst snd tlb_l1 translate_l1_hit translate_l2_hit
               translate_miss]; now rewrite length_insert.
    + destruct (tlb_invalidate_arrays s vpn) as (-> & _).
      rewrite clear_first_match_length.
      split; [now apply clear_first_match_no_duplicates|exact Hlen].
Qed.

(** The L1 half of invalidation completeness, likewise. *)
Lemma l1_invalidation_complete cs vpn :
  (0 < TLB_L1_SIZE)%nat ->
  ~ maps_vpn (tlb_l1 (tlb_invalidate (run boot cs) vpn).1) vpn.
Proof.
  intros Hpos. destruct (tlb_invalidate_arrays (run boot cs) vpn) as (-> & _).
  apply clear_first_match_complete. now apply l1_no_duplicates.
Qed.

End Properties.

(** ** Further properties of tlb.c *)

Section Further.
Context {cfg : tlb_config}.

(** *** Calls to the collaborators *)

(** X1. What one translation asks of the clock and of the page table
    walker. The L1 latency is charged on every call; the L2 latency is
    charged as well, after it, exactly when L1 misses; the walker is called,
    once, with the address and operation of the call, exactly when both
    levels miss, and then its answer is the result of the call. No
    invalidation charges any latency or calls the walker. *)
Theorem translate_external_calls (s : tlb_state) (va : Z) (op : op_t)
    (pa vpn : Z) :
  let out := tlb_translate s va op pa in
  match hit_at s (Z.shiftr va PAGE_SIZE_BITS) with
  | Some (L1, _) =>
      latencies out.2 = [TLB_L1_LATENCY_NS] /\ walks out.2 = []
  | Some (L2, _) =>
      latencies out.2 = [TLB_L1_LATENCY_NS; TLB_L2_LATENCY_NS] /\
      walks out.2 = []
  | None =>
      latencies out.2 = [TLB_L1_LATENCY_NS; TLB_L2_LATENCY_NS] /\
      walks out.2 = [(va, op)] /\ out.1.2 = pa
  end /\
  latencies (tlb_invalidate s vpn).2 = [] /\
  walks (tlb_invalidate s vpn).2 = [].
Proof.
  split.
  - unfold tlb_translate, hit_at.
    destruct (first_slot _ (tlb_l1 s) 0); [split; reflexivity|].
    destruct (first_slot _ (tlb_l2 s) 0); [split; reflexivity|].
    unfold translate_miss. cbn [fst snd].
    destruct (valid _ && dirty _); repeat split; reflexivity.
  - unfold tlb_invalidate.
    destruct (first_slot _ (tlb_l1 s) 0);
      destruct (first_slot _ (tlb_l2 s) 0); cbn [fst snd];
      try destruct (dirty _); split; reflexivity.
Qed.

(** *** Statistics *)

Lemma uint64_add_l a b : uint64 (uint64 a + b) = uint64 (a + b).
Proof. unfold uint64. now rewrite Z.add_mod_idemp_l by lia. Qed.

Lemma uint64_add_r a b : uint64 (a + uint64 b) = uint64 (a + b).
Proof. unfold uint64. now rewrite Z.add_mod_idemp_r by lia. Qed.

(** X2. What one translation does to the counters: an L1 hit adds one to
    the L1 hits, an L2 hit adds one to the L1 misses and to the L2 hits, a
    miss in both levels adds one to the L1 misses and to the L2 misses, all
    modulo [2^64]; nothing else moves, and the invalidation counters never
    do. [access_counter] advances by one on a hit and by two on a miss in
    both levels. *)
Theorem translate_statistics (s : tlb_state) (va : Z) (op : op_t) (pa : Z) :
  let s' := (tlb_translate s va op pa).1.1 in
  tlb_l1_invalidations s' = tlb_l1_invalidations s /\
  tlb_l2_invalidations s' = tlb_l2_invalidations s /\
  match hit_at s (Z.shiftr va PAGE_SIZE_BITS) with
  | Some (L1, _) =>
      tlb_l1_hits s' = uint64 (tlb_l1_hits s + 1) /\
      tlb_l1_misses s' = tlb_l1_misses s /\
      tlb_l2_hits s' = tlb_l2_hits s /\
      tlb_l2_misses s' = tlb_l2_misses s /\
      access_counter s' = uint64 (access_counter s + 1)
  | Some (L2, _) =>
      tlb_l1_hits s' = tlb_l1_hits s /\
      tlb_l1_misses s' = uint64 (tlb_l1_misses s + 1) /\
      tlb_l2_hits s' = uint64 (tlb_l2_hits s + 1) /\
      tlb_l2_misses s' = tlb_l2_misses s /\
      access_counter s' = uint64 (access_counter s + 1)
  | None =>
      tlb_l1_hits s' = tlb_l1_hits s /\
      tlb_l1_misses s' = uint64 (tlb_l1_misses s + 1) /\
      tlb_l2_hits s' = tlb_l2_hits s /\
      tlb_l2_misses s' = uint64 (tlb_l2_misses s + 1) /\
      access_counter s' = uint64 (access_counter s + 2)
  end.
Proof.
  unfold tlb_translate, hit_at.
  destruct (first_slot _ (tlb_l1 s) 0); [repeat split; reflexivity|].
  destruct (first_slot _ (tlb_l2 s) 0); [repeat split; reflexivity|].
  unfold translate_miss. cbn [fst snd tlb_l1_hits tlb_l1_misses tlb_l2_hits
    tlb_l2_misses tlb_l1_invalidations tlb_l2_invalidations access_counter].
  repeat split; try reflexivity.
  rewrite uint64_add_l. f_equal. lia.
Qed.

Lemma uint64_congr a b c :
  uint64 a = uint64 b -> uint64 (a + c) = uint64 (b + c).
Proof. intros H. now rewrite <- uint64_add_l, H, uint64_add_l. Qed.

Lemma exec_statistics n s c :
  statistics_consistent n s ->
  statistics_consistent (count_translation n c) (exec s c).
Proof.
  intros ((Hh1 & Hm1 & Hh2 & Hm2) & Hacc & Hsum).
  destruct c as [|va op pa|vpn]; simpl.
  - unfold statistics_consistent, tlb_init. simpl. repeat split; lia.
  - unfold tlb_translate.
    destruct (first_slot _ (tlb_l1 s) 0);
      [|destruct (first_slot _ (tlb_l2 s) 0)];
      unfold statistics_consistent, translate_l1_hit, translate_l2_hit,
        translate_miss;
      cbn [fst snd tlb_l1_hits tlb_l1_misses tlb_l2_hits tlb_l2_misses];
      repeat split; try apply uint64_range; try lia; try exact Hacc;
      rewrite ?uint64_add_l, ?uint64_add_r;
      first
        [ rewrite Hacc, ?uint64_add_l; f_equal; lia
        | match goal with
          | |- uint64 ?a = _ =>
              replace a with (tlb_l1_hits s + tlb_l1_misses s + 1) by lia
          end;
          apply uint64_congr, Hsum ].
  - unfold statistics_consistent, tlb_invalidate.
    destruct (first_slot _ (tlb_l1 s) 0);
      destruct (first_slot _ (tlb_l2 s) 0); simpl; repeat split; auto; lia.
Qed.

Lemma run_statistics cs : forall n s,
  statistics_consistent n s ->
  statistics_consistent (fold_left count_translation cs n) (run s cs).
Proof.
  induction cs as [|c cs IH]; intros n s Hs; [exact Hs|].
  simpl. apply IH. now apply exec_statistics.
Qed.

(** X3. In every state reached from start-up, each L1 miss has been counted
    as an L2 hit or as an L2 miss, and the L1 hits and misses add up to the
    number of translations since the last [tlb_init] (all modulo [2^64],
    the width of the counters). *)
Theorem statistics_accounting (cs : list call) :
  let s := run boot cs in
  tlb_l1_misses s = uint64 (tlb_l2_hits s + tlb_l2_misses s) /\
  uint64 (tlb_l1_hits s + tlb_l1_misses s)
    = uint64 (translations_since_init cs).
Proof.
  assert (H0 : statistics_consistent 0 boot).
  { unfold statistics_consistent, boot. simpl. repeat split; try lia;
      reflexivity. }
  destruct (run_statistics cs 0 boot H0) as (_ & Hacc & Hsum).
  split; assumption.
Qed.

(** *** Invalidation of a page that is absent or present *)

Lemma no_map_miss vpn arr :
  ~ maps_vpn arr vpn -> first_slot (tlb_match vpn) arr 0 = None.
Proof.
  intros Hno. apply first_slot_None_intro. intros j e Hj.
  destruct (tlb_match vpn e) eqn:Hm; [|reflexivity].
  exfalso. apply Hno. apply tlb_match_true in Hm as [Hv Hp]. now exists j, e.
Qed.

Lemma map_hit vpn arr :
  maps_vpn arr vpn -> exists i, first_slot (tlb_match vpn) arr 0 = Some i.
Proof.
  intros Hmap. destruct (first_slot (tlb_match vpn) arr 0) as [i|] eqn:Hscan;
    [now exists i|].
  now apply miss_no_map in Hscan.
Qed.

(** X4. Invalidating a page that no valid entry of either level maps does
    nothing at all: the state is returned as it was, invalidation counters
    included, and no collaborator is called. *)
Theorem tlb_invalidate_absent (s : tlb_state) (vpn : Z) :
  ~ maps_vpn (tlb_l1 s) vpn -> ~ maps_vpn (tlb_l2 s) vpn ->
  tlb_invalidate s vpn = (s, []).
Proof.
  intros H1 H2. unfold tlb_invalidate.
  rewrite (no_map_miss _ _ H1), (no_map_miss _ _ H2). now destruct s.
Qed.

(** X5. The invalidation counter of a level advances by one (modulo
    [2^64]) exactly when that level held a valid entry for the page, and
    stays put otherwise; the two levels are counted independently. *)
Theorem tlb_invalidate_counts (s : tlb_state) (vpn : Z) :
  let s' := (tlb_invalidate s vpn).1 in
  (maps_vpn (tlb_l1 s) vpn ->
   tlb_l1_invalidations s' = uint64 (tlb_l1_invalidations s + 1)) /\
  (~ maps_vpn (tlb_l1 s) vpn ->
   tlb_l1_invalidations s' = tlb_l1_invalidations s) /\
  (maps_vpn (tlb_l2 s) vpn ->
   tlb_l2_invalidations s' = uint64 (tlb_l2_invalidations s + 1)) /\
  (~ maps_vpn (tlb_l2 s) vpn ->
   tlb_l2_invalidations s' = tlb_l2_invalidations s).
Proof.
  unfold tlb_invalidate.
  destruct (first_slot _ (tlb_l1 s) 0) as [i1|] eqn:H1;
    destruct (first_slot _ (tlb_l2 s) 0) as [i2|] eqn:H2; cbn [fst];
    repeat split; intros Hm; try reflexivity;
    try (apply map_hit in Hm as [i Hi]; congruence);
    try (apply no_map_miss in Hm; congruence).
Qed.

(** *** The first translation after [tlb_init] *)

Lemma find_lru_victim_replicate n :
  (0 < n)%nat -> find_lru_victim (replicate n zero_entry) = 0%nat.
Proof. destruct n; [lia|reflexivity]. Qed.

Lemma scan_replicate vpn n :
  first_slot (tlb_match vpn) (replicate n zero_entry) 0 = None.
Proof.
  apply first_slot_None_intro. intros j e Hj.
  apply lookup_replicate in Hj as [-> _]. reflexivity.
Qed.

(** X6. Right after [tlb_init], whatever the state before and whatever the
    address, a translation misses in both levels, returns the answer of the
    page table walker, writes nothing back, and installs the mapping in
    slot 0 of L2 and of L1, dirty exactly for a write. *)
Theorem cold_translation (s : tlb_state) (va : Z) (op : op_t) (pa : Z) :
  (0 < TLB_L1_SIZE)%nat -> (0 < TLB_L2_SIZE)%nat ->
  let out := tlb_translate (tlb_init s) va op pa in
  let vpn := Z.shiftr va PAGE_SIZE_BITS in
  let ppn := Z.shiftr pa PAGE_SIZE_BITS in
  hit_at (tlb_init s) vpn = None /\
  out.1.2 = pa /\ write_backs out.2 = [] /\
  tlb_l2 out.1.1 !! 0%nat
    = Some (TlbEntry true (is_write op) (uint64 (access_counter s + 1))
                     vpn ppn) /\
  tlb_l1 out.1.1 !! 0%nat
    = Some (TlbEntry true (is_write op) (uint64 (access_counter s + 2))
                     vpn ppn).
Proof.
  intros Hpos1 Hpos2. cbv zeta. unfold hit_at, tlb_translate, tlb_init.
  cbn [tlb_l1 tlb_l2]. rewrite !scan_replicate.
  unfold translate_miss.
  cbn [fst snd tlb_l1 tlb_l2 access_counter].
  rewrite !find_lru_victim_replicate by assumption.
  rewrite lookup_total_replicate_2 by lia.
  rewrite !list_lookup_insert_eq by (rewrite length_replicate; lia).
  rewrite uint64_add_l.
  replace (access_counter s + 1 + 1) with (access_counter s + 2) by lia.
  repeat split; reflexivity.
Qed.

(** *** A miss followed by a lookup *)

Lemma first_slot_insert_fresh p arr i k e :
  first_slot p arr i = None -> (k < length arr)%nat -> p e = true ->
  first_slot p (<[k := e]> arr) i = Some (i + k)%nat.
Proof.
  revert i k. induction arr as [|a arr IH]; intros i k; simpl; [lia|].
  destruct (p a) eqn:Hp; [discriminate|]. intros Hscan Hk He.
  destruct k as [|k]; simpl.
  - rewrite He. f_equal. lia.
  - rewrite Hp, (IH (S i) k) by (auto; lia). f_equal. lia.
Qed.

Lemma fill_outcome s va op pa :
  well_sized s -> (0 < TLB_L1_SIZE)%nat -> (0 < TLB_L2_SIZE)%nat ->
  hit_at s (Z.shiftr va PAGE_SIZE_BITS) = None ->
  let vpn := Z.shiftr va PAGE_SIZE_BITS in
  let s1 := (tlb_translate s va op pa).1.1 in
  exists e1 e2,
    first_slot (tlb_match vpn) (tlb_l1 s1) 0 = Some (find_lru_victim_l1 s) /\
    tlb_l1 s1 !! find_lru_victim_l1 s = Some e1 /\
    tlb_l2 s1 !! find_lru_victim_l2 s = Some e2 /\
    (forall e, e = e1 \/ e = e2 ->
       valid e = true /\ dirty e = is_write op /\
       virtual_page_number e = vpn /\
       physical_page_number e = Z.shiftr pa PAGE_SIZE_BITS).
Proof.
  intros [Hs1 Hs2] Hpos1 Hpos2. unfold hit_at, tlb_translate.
  destruct (first_slot _ (tlb_l1 s) 0) eqn:H1; [discriminate|].
  destruct (first_slot _ (tlb_l2 s) 0) eqn:H2; [discriminate|]. intros _.
  cbv zeta. unfold translate_miss, find_lru_victim_l1, find_lru_victim_l2.
  cbn [fst snd tlb_l1 tlb_l2].
  assert (Hv1 : (find_lru_victim (tlb_l1 s) < length (tlb_l1 s))%nat)
    by (apply find_lru_victim_lt; eapply nonempty_of_length; eauto).
  assert (Hv2 : (find_lru_victim (tlb_l2 s) < length (tlb_l2 s))%nat)
    by (apply find_lru_victim_lt; eapply nonempty_of_length; eauto).
  do 2 eexists. split; [|split; [|split]].
  - rewrite (first_slot_insert_fresh _ _ 0 _ _ H1 Hv1); [reflexivity|].
    unfold tlb_match. simpl. now rewrite Z.eqb_refl.
  - now apply list_lookup_insert_eq.
  - now apply list_lookup_insert_eq.
  - intros e [->| ->]; repeat split; reflexivity.
Qed.

Lemma fill_entries s va op pa :
  well_sized s -> (0 < TLB_L1_SIZE)%nat -> (0 < TLB_L2_SIZE)%nat ->
  hit_at s (Z.shiftr va PAGE_SIZE_BITS) = None ->
  let vpn := Z.shiftr va PAGE_SIZE_BITS in
  let ppn := Z.shiftr pa PAGE_SIZE_BITS in
  let s1 := (tlb_translate s va op pa).1.1 in
  tlb_l2 s1 !! find_lru_victim_l2 s
    = Some (TlbEntry true (is_write op) (uint64 (access_counter s + 1))
                     vpn ppn) /\
  tlb_l1 s1 !! find_lru_victim_l1 s
    = Some (TlbEntry true (is_write op) (uint64 (access_counter s + 2))
                     vpn ppn).
Proof.
  intros [Hs1 Hs2] Hpos1 Hpos2. unfold hit_at, tlb_translate.
  destruct (first_slot _ (tlb_l1 s) 0) eqn:H1; [discriminate|].
  destruct (first_slot _ (tlb_l2 s) 0) eqn:H2; [discriminate|]. intros _.
  cbv zeta. unfold translate_miss, find_lru_victim_l1, find_lru_victim_l2.
  cbn [fst snd tlb_l1 tlb_l2].
  assert (Hv1 : (find_lru_victim (tlb_l1 s) < length (tlb_l1 s))%nat)
    by (apply find_lru_victim_lt; eapply nonempty_of_length; eauto).
  assert (Hv2 : (find_lru_victim (tlb_l2 s) < length (tlb_l2 s))%nat)
    by (apply find_lru_victim_lt; eapply nonempty_of_length; eauto).
  rewrite !list_lookup_insert_eq by assumption.
  rewrite uint64_add_l.
  replace (access_counter s + 1 + 1) with (access_counter s + 2) by lia.
  split; reflexivity.
Qed.

(** X7. Insert, then look up. After a translation that missed in both
    levels, the victim slot of L2 and the victim slot of L1 each hold a
    valid entry for the page, dirty exactly for a write, carrying the frame
    number of the walker's answer and stamped with the first, resp. the
    second increment of [access_counter]; a translation of any address of
    that page that follows immediately hits in L1 at that victim slot and
    returns that frame with the offset of the new address. *)
Theorem fill_then_hit (s : tlb_state) (va : Z) (op : op_t) (pa : Z)
    (va' : Z) (op' : op_t) (pa' : Z) :
  well_sized s -> (0 < TLB_L1_SIZE)%nat -> (0 < TLB_L2_SIZE)%nat ->
  hit_at s (Z.shiftr va PAGE_SIZE_BITS) = None ->
  Z.shiftr va' PAGE_SIZE_BITS = Z.shiftr va PAGE_SIZE_BITS ->
  let vpn := Z.shiftr va PAGE_SIZE_BITS in
  let ppn := Z.shiftr pa PAGE_SIZE_BITS in
  let s1 := (tlb_translate s va op pa).1.1 in
  tlb_l2 s1 !! find_lru_victim_l2 s
    = Some (TlbEntry true (is_write op) (uint64 (access_counter s + 1))
                     vpn ppn) /\
  tlb_l1 s1 !! find_lru_victim_l1 s
    = Some (TlbEntry true (is_write op) (uint64 (access_counter s + 2))
                     vpn ppn) /\
  hit_at s1 vpn = Some (L1, find_lru_victim_l1 s) /\
  maps_vpn (tlb_l1 s1) vpn /\ maps_vpn (tlb_l2 s1) vpn /\
  (tlb_translate s1 va' op' pa').1.2
    = Z.lor (page_address ppn) (Z.land va' page_mask).
Proof.
  intros Hs Hpos1 Hpos2 Hmiss Hpage vpn ppn s1.
  destruct (fill_entries s va op pa Hs Hpos1 Hpos2 Hmiss) as [He2 He1].
  destruct (fill_outcome s va op pa Hs Hpos1 Hpos2 Hmiss)
    as (e1 & e2 & Hscan & Hl1 & Hl2 & Hnew).
  fold vpn ppn s1 in He1, He2, Hscan, Hl1, Hl2, Hnew.
  destruct (Hnew e1 (or_introl eq_refl)) as (Hv1 & _ & Hp1 & Hf1).
  destruct (Hnew e2 (or_intror eq_refl)) as (Hv2 & _ & Hp2 & _).
  split; [exact He2|]. split; [exact He1|].
  split; [unfold hit_at; now rewrite Hscan|].
  split; [now exists (find_lru_victim_l1 s), e1|].
  split; [now exists (find_lru_victim_l2 s), e2|].
  unfold tlb_translate. rewrite Hpage. fold vpn. rewrite Hscan.
  unfold translate_l1_hit. cbn [fst snd].
  rewrite (list_lookup_total_correct _ _ _ Hl1).
  destruct (touch_fields (uint64 (access_counter s1 + 1)) op' e1)
    as (_ & _ & _ & ->).
  now rewrite Hf1.
Qed.

(** *** Page frame and page offset *)

Lemma page_mask_ones :
  0 <= PAGE_SIZE_BITS < 64 -> page_mask = Z.ones PAGE_SIZE_BITS.
Proof.
  intros Hb. unfold page_mask. rewrite Z.shiftl_1_l, Z.ones_equiv.
  assert (0 < 2 ^ PAGE_SIZE_BITS) by (apply Z.pow_pos_nonneg; lia).
  assert (2 ^ PAGE_SIZE_BITS < 2 ^ 64) by (apply Z.pow_lt_mono_r; lia).
  rewrite (uint64_small (2 ^ PAGE_SIZE_BITS)) by lia.
  rewrite uint64_small by lia. lia.
Qed.

Lemma page_address_low p :
  0 <= PAGE_SIZE_BITS < 64 ->
  Z.land (page_address p) (Z.ones PAGE_SIZE_BITS) = 0.
Proof.
  intros Hb. rewrite Z.land_ones by lia. unfold page_address, uint64.
  rewrite Z.shiftl_mul_pow2 by lia.
  assert (Hpos : 0 < 2 ^ PAGE_SIZE_BITS) by (apply Z.pow_pos_nonneg; lia).
  assert (Hpos' : 0 < 2 ^ (64 - PAGE_SIZE_BITS))
    by (apply Z.pow_pos_nonneg; lia).
  replace (2 ^ 64) with (2 ^ (64 - PAGE_SIZE_BITS) * 2 ^ PAGE_SIZE_BITS)
    by (rewrite <- Z.pow_add_r by lia; f_equal; lia).
  rewrite Z.mul_mod_distr_r by lia. apply Z.mod_mul. lia.
Qed.

Lemma offset_high_zero va :
  0 <= PAGE_SIZE_BITS ->
  Z.shiftr (Z.land va (Z.ones PAGE_SIZE_BITS)) PAGE_SIZE_BITS = 0.
Proof.
  intros Hb. rewrite Z.land_ones, Z.shiftr_div_pow2 by lia.
  apply Z.div_small. apply Z.mod_pos_bound. apply Z.pow_pos_nonneg; lia.
Qed.

(** The slot of a hit after the call, in any state: it holds the entry that
    hit, refreshed, unless the demotion step copied the L1 victim over it;
    the result is built from the frame number found there. *)
Lemma hit_slot_after s va op pa lvl i :
  hit_at s (Z.shiftr va PAGE_SIZE_BITS) = Some (lvl, i) ->
  let c := uint64 (access_counter s + 1) in
  let out := tlb_translate s va op pa in
  exists e e',
    level_array lvl s !! i = Some e /\
    level_array lvl out.1.1 !! i = Some e' /\
    out.1.2 = Z.lor (page_address (physical_page_number e'))
                    (Z.land va page_mask) /\
    (lvl = L1 \/ demotion_overwrites s i op = false -> e' = touch c op e) /\
    (lvl = L2 -> demotion_overwrites s i op = true ->
     e' = set_last_access c (tlb_l1 s !!! find_lru_victim_l1 s)).
Proof.
  unfold hit_at, tlb_translate.
  destruct (first_slot _ (tlb_l1 s) 0) as [k|] eqn:H1.
  - intros [= <- <-]. cbv zeta.
    apply scan_hit in H1 as (e & Hk & Hke & Hlt & _).
    unfold translate_l1_hit. cbn [fst snd level_array tlb_l1]. rewrite Hke.
    exists e, (touch (uint64 (access_counter s + 1)) op e).
    split; [exact Hk|]. split; [now apply list_lookup_insert_eq|].
    split; [reflexivity|]. split; [reflexivity|discriminate].
  - destruct (first_slot _ (tlb_l2 s) 0) as [k|] eqn:H2; [|discriminate].
    intros [= <- <-]. cbv zeta.
    apply scan_hit in H2 as (e & Hk & Hke & Hlt & _).
    unfold translate_l2_hit, demotion_overwrites, find_lru_victim_l1.
    cbn [fst snd level_array tlb_l2].
    set (c := uint64 (access_counter s + 1)).
    set (l2a := record_l2_hit s k op).
    set (victim := tlb_l1 s !!! find_lru_victim (tlb_l1 s)).
    assert (Hla : (k < length l2a)%nat)
      by (unfold l2a, record_l2_hit; now rewrite length_insert).
    assert (Ha : l2a !!! k = touch c op e).
    { unfold l2a, record_l2_hit. rewrite Hke.
      now rewrite list_lookup_total_insert_eq. }
    exists e. destruct (valid victim && dirty victim); simpl.
    + destruct (Nat.eqb_spec (demotion_slot l2a k) k) as [Hd|Hd].
      * rewrite Hd, list_lookup_total_insert_eq by exact Hla.
        exists (set_last_access c victim).
        split; [exact Hk|].
        split; [apply list_lookup_insert_eq; now rewrite length_insert|].
        rewrite list_lookup_total_insert_eq by now rewrite length_insert.
        split; [reflexivity|]. split; [|reflexivity].
        intros [?|?]; discriminate.
      * rewrite list_lookup_total_insert_ne, Ha by exact Hd.
        rewrite set_last_access_touch. exists (touch c op e).
        split; [exact Hk|].
        split; [apply list_lookup_insert_eq; now rewrite length_insert|].
        rewrite list_lookup_total_insert_eq by now rewrite length_insert.
        split; [reflexivity|]. split; [reflexivity|discriminate].
    + rewrite Ha, set_last_access_touch. exists (touch c op e).
      split; [exact Hk|]. split; [now apply list_lookup_insert_eq|].
      rewrite list_lookup_total_insert_eq by exact Hla.
      split; [reflexivity|]. split; [reflexivity|discriminate].
Qed.

Lemma page_address_frame p :
  0 <= PAGE_SIZE_BITS < 64 -> 0 <= p < 2 ^ (64 - PAGE_SIZE_BITS) ->
  Z.shiftr (page_address p) PAGE_SIZE_BITS = p.
Proof.
  intros Hb Hp. unfold page_address.
  assert (Hpos : 0 < 2 ^ PAGE_SIZE_BITS) by (apply Z.pow_pos_nonneg; lia).
  assert (Hsplit : 2 ^ 64 = 2 ^ (64 - PAGE_SIZE_BITS) * 2 ^ PAGE_SIZE_BITS)
    by (rewrite <- Z.pow_add_r by lia; f_equal; lia).
  rewrite Z.shiftl_mul_pow2 by lia.
  rewrite uint64_small by (rewrite Hsplit; nia).
  rewrite Z.shiftr_div_pow2 by lia. apply Z.div_mul. lia.
Qed.

(** X8. A translation that hits at slot [i], in either level and in any
    state, keeps the page offset of the address: the low [PAGE_SIZE_BITS]
    bits of the result are those of the virtual address. The bits above
    them are those of the page address of the frame number that slot [i]
    of the level holds after the call, and they are that frame number
    itself when it fits in [64 - PAGE_SIZE_BITS] bits. That frame number is
    the one of the entry that hit for an L1 hit, and for an L2 hit whenever
    the demotion step does not copy the L1 victim over slot [i]. *)
Theorem hit_keeps_offset (s : tlb_state) (va : Z) (op : op_t) (pa : Z)
    (lvl : level) (i : nat) :
  0 <= PAGE_SIZE_BITS < 64 ->
  hit_at s (Z.shiftr va PAGE_SIZE_BITS) = Some (lvl, i) ->
  let out := tlb_translate s va op pa in
  let result := out.1.2 in
  exists e e',
    level_array lvl s !! i = Some e /\
    level_array lvl out.1.1 !! i = Some e' /\
    Z.land result page_mask = Z.land va page_mask /\
    Z.shiftr result PAGE_SIZE_BITS
      = Z.shiftr (page_address (physical_page_number e')) PAGE_SIZE_BITS /\
    (0 <= physical_page_number e' < 2 ^ (64 - PAGE_SIZE_BITS) ->
     Z.shiftr result PAGE_SIZE_BITS = physical_page_number e') /\
    (lvl = L1 \/ demotion_overwrites s i op = false ->
     physical_page_number e' = physical_page_number e).
Proof.
  intros Hb Hhit out result.
  destruct (hit_slot_after s va op pa lvl i Hhit)
    as (e & e' & He & He' & Hres & Hkept & _).
  fold out in He', Hres. exists e, e'.
  assert (Hhigh : Z.shiftr result PAGE_SIZE_BITS
            = Z.shiftr (page_address (physical_page_number e'))
                       PAGE_SIZE_BITS).
  { subst result. rewrite Hres, page_mask_ones by exact Hb.
    rewrite Z.shiftr_lor, offset_high_zero by lia. apply Z.lor_0_r. }
  split; [exact He|]. split; [exact He'|]. split; [|split; [|split]].
  - subst result. rewrite Hres, page_mask_ones by exact Hb.
    rewrite Z.land_lor_distr_l, page_address_low by exact Hb.
    rewrite Z.lor_0_l, <- Z.land_assoc, Z.land_diag. reflexivity.
  - exact Hhigh.
  - intros Hfit. rewrite Hhigh. now apply page_address_frame.
  - intros Hcase. rewrite (Hkept Hcase).
    now destruct (touch_fields (uint64 (access_counter s + 1)) op e)
      as (_ & _ & _ & ->).
Qed.

Lemma recombine pa :
  0 <= PAGE_SIZE_BITS < 64 -> 0 <= pa < 2 ^ 64 ->
  Z.lor (page_address (Z.shiftr pa PAGE_SIZE_BITS))
        (Z.land pa (Z.ones PAGE_SIZE_BITS)) = pa.
Proof.
  intros Hb Hpa. unfold page_address.
  assert (Hpos : 0 < 2 ^ PAGE_SIZE_BITS) by (apply Z.pow_pos_nonneg; lia).
  assert (Hle : 0 <= Z.shiftl (Z.shiftr pa PAGE_SIZE_BITS) PAGE_SIZE_BITS
                  <= pa).
  { rewrite Z.shiftl_mul_pow2, Z.shiftr_div_pow2 by lia. split.
    - apply Z.mul_nonneg_nonneg; [|lia]. apply Z.div_pos; lia.
    - rewrite Z.mul_comm. apply Z.mul_div_le. lia. }
  rewrite uint64_small by lia.
  rewrite <- Z.ldiff_ones_r by lia. apply Z.lor_ldiff_and.
Qed.

Lemma miss_result s va op pa :
  hit_at s (Z.shiftr va PAGE_SIZE_BITS) = None ->
  (tlb_translate s va op pa).1.2 = pa.
Proof.
  unfold hit_at, tlb_translate.
  destruct (first_slot _ (tlb_l1 s) 0); [discriminate|].
  destruct (first_slot _ (tlb_l2 s) 0); [discriminate|]. reflexivity.
Qed.

Lemma hit_no_walk s va op pa h :
  hit_at s (Z.shiftr va PAGE_SIZE_BITS) = Some h ->
  walks (tlb_translate s va op pa).2 = [].
Proof.
  unfold hit_at, tlb_translate.
  destruct (first_slot _ (tlb_l1 s) 0); [reflexivity|].
  destruct (first_slot _ (tlb_l2 s) 0); [reflexivity|discriminate].
Qed.

(** X9. The cache is transparent for a repeated access. If a translation
    misses in both levels and the page table walker answers with a 64-bit
    address [pa] that has the page offset of [va], then translating [va]
    again right away, for a read or a write, hits in L1 and returns [pa]
    again without consulting the walker. *)
Theorem repeated_translation_agrees (s : tlb_state) (va : Z) (op : op_t)
    (pa : Z) (op' : op_t) (pa' : Z) :
  well_sized s -> (0 < TLB_L1_SIZE)%nat -> (0 < TLB_L2_SIZE)%nat ->
  0 <= PAGE_SIZE_BITS < 64 -> 0 <= pa < 2 ^ 64 ->
  Z.land pa page_mask = Z.land va page_mask ->
  hit_at s (Z.shiftr va PAGE_SIZE_BITS) = None ->
  let first := tlb_translate s va op pa in
  let second := tlb_translate first.1.1 va op' pa' in
  first.1.2 = pa /\ second.1.2 = pa /\ walks second.2 = [].
Proof.
  intros Hs Hpos1 Hpos2 Hb Hpa Hoff Hmiss first second.
  destruct (fill_outcome s va op pa Hs Hpos1 Hpos2 Hmiss)
    as (e1 & e2 & Hscan & Hl1 & _ & Hnew).
  destruct (Hnew e1 (or_introl eq_refl)) as (_ & _ & _ & Hf1).
  fold first in Hscan, Hl1.
  assert (Hhit : hit_at first.1.1 (Z.shiftr va PAGE_SIZE_BITS)
                 = Some (L1, find_lru_victim_l1 s))
    by (unfold hit_at; now rewrite Hscan).
  split; [now apply miss_result|]. split; [|eapply hit_no_walk, Hhit].
  subst second. unfold tlb_translate. rewrite Hscan.
  unfold translate_l1_hit. cbn [fst snd].
  rewrite (list_lookup_total_correct _ _ _ Hl1).
  destruct (touch_fields (uint64 (access_counter first.1.1 + 1)) op' e1)
    as (_ & _ & _ & ->).
  rewrite Hf1, <- Hoff, page_mask_ones by exact Hb. now apply recombine.
Qed.

(** *** Array indices *)

Lemma rescan_l2_range arr j i oldest pos :
  let r := rescan_l2 arr j i oldest pos in
  r = pos \/ (j <= r < j + length arr)%nat.
Proof.
  revert j oldest pos. induction arr as [|a arr IH]; intros j oldest pos;
    simpl; [now left|].
  destruct (last_access a <? oldest).
  - destruct (IH (S j) (last_access a) (if (j =? i)%nat then pos else j))
      as [Hr|Hr].
    + rewrite Hr. destruct (j =? i)%nat; [now left|right; lia].
    + right. lia.
  - destruct (IH (S j) oldest pos) as [Hr|Hr]; [now left|right; lia].
Qed.

(** X10. Every index the code computes stays inside its array: the victim
    chosen in a level is below the capacity of that level, and so are the
    slot of a hit and the slot chosen to receive a demoted L1 victim, re-scan
    included. *)
Theorem slot_indices_in_range (s : tlb_state) (vpn : Z) (op : op_t) :
  well_sized s -> (0 < TLB_L1_SIZE)%nat -> (0 < TLB_L2_SIZE)%nat ->
  (find_lru_victim_l1 s < TLB_L1_SIZE)%nat /\
  (find_lru_victim_l2 s < TLB_L2_SIZE)%nat /\
  (forall i, first_slot (tlb_match vpn) (tlb_l1 s) 0 = Some i ->
             (i < TLB_L1_SIZE)%nat) /\
  (forall i, first_slot (tlb_match vpn) (tlb_l2 s) 0 = Some i ->
             (i < TLB_L2_SIZE)%nat /\
             (demotion_slot (record_l2_hit s i op) i < TLB_L2_SIZE)%nat).
Proof.
  intros [Hs1 Hs2] Hpos1 Hpos2.
  assert (Hne1 : tlb_l1 s <> []) by (eapply nonempty_of_length; eauto).
  assert (Hne2 : tlb_l2 s <> []) by (eapply nonempty_of_length; eauto).
  unfold find_lru_victim_l1, find_lru_victim_l2.
  split; [rewrite <- Hs1; now apply find_lru_victim_lt|].
  split; [rewrite <- Hs2; now apply find_lru_victim_lt|].
  split.
  - intros i Hi. apply scan_hit in Hi as (_ & _ & _ & Hlt & _). lia.
  - intros i Hi. apply scan_hit in Hi as (_ & _ & _ & Hlt & _).
    split; [lia|].
    set (l2a := record_l2_hit s i op).
    assert (Hlen : length l2a = TLB_L2_SIZE)
      by (unfold l2a, record_l2_hit; now rewrite length_insert).
    assert (Hnea : l2a <> []) by (eapply nonempty_of_length; eauto).
    pose proof (find_lru_victim_lt l2a Hnea) as Hv.
    unfold demotion_slot. destruct (find_lru_victim l2a =? i)%nat; [|lia].
    destruct (rescan_l2_range (drop 1 l2a) 1 i (last_access (l2a !!! 0%nat))
                (find_lru_victim l2a)) as [->|Hr]; [lia|].
    rewrite length_drop in Hr. lia.
Qed.

(** *** What an L1 hit leaves alone *)

Lemma touch_entry c op e :
  touch c op e
  = TlbEntry (valid e) (dirty e || is_write op) c (virtual_page_number e)
             (physical_page_number e).
Proof.
  unfold touch. destruct op; simpl.
  - now rewrite orb_false_r.
  - now rewrite orb_true_r.
Qed.

(** X11. A translation that hits in L1 at slot [i] does not touch L2 at
    all and leaves every other L1 slot as it was; in slot [i] the mapping
    and the valid flag are kept, the timestamp becomes the incremented
    [access_counter], and the dirty flag is the old one or-ed with
    "the operation is a write". *)
Theorem l1_hit_frame (s : tlb_state) (va : Z) (op : op_t) (pa : Z) (i : nat) :
  hit_at s (Z.shiftr va PAGE_SIZE_BITS) = Some (L1, i) ->
  let s' := (tlb_translate s va op pa).1.1 in
  tlb_l2 s' = tlb_l2 s /\
  same_except i (tlb_l1 s) (tlb_l1 s') /\
  exists e, tlb_l1 s !! i = Some e /\
    tlb_l1 s' !! i
    = Some (TlbEntry (valid e) (dirty e || is_write op)
                     (uint64 (access_counter s + 1))
                     (virtual_page_number e) (physical_page_number e)).
Proof.
  unfold hit_at, tlb_translate.
  destruct (first_slot _ (tlb_l1 s) 0) as [k|] eqn:H1;
    [|destruct (first_slot _ (tlb_l2 s) 0); discriminate].
  intros [= <-]. apply scan_hit in H1 as (e & Hk & Hke & Hlt & _).
  unfold translate_l1_hit. cbn [fst snd tlb_l1 tlb_l2]. rewrite Hke.
  split; [reflexivity|]. split.
  - split; [apply length_insert|].
    intros j Hj. apply list_lookup_insert_ne. congruence.
  - exists e. split; [exact Hk|].
    rewrite list_lookup_insert_eq by exact Hlt. now rewrite touch_entry.
Qed.

(** *** Where duplicates in L2 can come from *)

Lemma miss_walk s va op pa :
  hit_at s (Z.shiftr va PAGE_SIZE_BITS) = None ->
  walks (tlb_translate s va op pa).2 = [(va, op)].
Proof.
  unfold hit_at, tlb_translate.
  destruct (first_slot _ (tlb_l1 s) 0); [discriminate|].
  destruct (first_slot _ (tlb_l2 s) 0); [discriminate|]. intros _.
  unfold translate_miss. cbn [snd]. now destruct (valid _ && dirty _).
Qed.

(** X12. An L2 without duplicates stays without duplicates through
    [tlb_invalidate] and through every translation except one that hits in
    L2 while the L1 victim is valid and dirty: the copy of that victim into
    L2 is the only step of the code that can make an L2 duplicate. *)
Theorem l2_duplicates_only_by_demotion (s : tlb_state) (va : Z) (op : op_t)
    (pa vpn : Z) :
  no_duplicates (tlb_l2 s) ->
  no_duplicates (tlb_l2 (tlb_invalidate s vpn).1) /\
  ((forall i, hit_at s (Z.shiftr va PAGE_SIZE_BITS) = Some (L2, i) ->
      let victim := tlb_l1 s !!! find_lru_victim_l1 s in
      valid victim && dirty victim = false) ->
   no_duplicates (tlb_l2 (tlb_translate s va op pa).1.1)).
Proof.
  intros Hnd. split.
  - destruct (tlb_invalidate_arrays s vpn) as (_ & -> & _).
    now apply clear_first_match_no_duplicates.
  - unfold hit_at, tlb_translate, find_lru_victim_l1.
    destruct (first_slot _ (tlb_l1 s) 0) as [k|] eqn:H1; [intros _; exact Hnd|].
    destruct (first_slot _ (tlb_l2 s) 0) as [k|] eqn:H2.
    + intros Hclean. specialize (Hclean k eq_refl). cbv zeta in Hclean.
      apply scan_hit in H2 as (e & Hk & Hke & Hlt & _).
      unfold translate_l2_hit, record_l2_hit. cbn [fst snd tlb_l2].
      rewrite Hclean, Hke, list_lookup_total_insert_eq by exact Hlt.
      rewrite list_insert_insert_eq, set_last_access_touch.
      apply (no_duplicates_insert_same _ _ e _ Hk); [|exact Hnd].
      destruct (touch_fields (uint64 (access_counter s + 1)) op e)
        as (Hv & _ & Hp & _).
      intros Hv'. split; congruence.
    + intros _. unfold translate_miss. cbn [fst snd tlb_l2].
      apply no_duplicates_insert_fresh; [exact Hnd|]. simpl. intros _.
      now apply miss_no_map.
Qed.

(** X13. Invalidate, then translate. When neither level holds a duplicate,
    [tlb_invalidate] removes the page for good: the next translation of an
    address of that page misses in both levels, asks the page table walker
    and returns its answer. *)
Theorem invalidate_then_miss (s : tlb_state) (vpn va : Z) (op : op_t)
    (pa : Z) :
  no_duplicates (tlb_l1 s) -> no_duplicates (tlb_l2 s) ->
  Z.shiftr va PAGE_SIZE_BITS = vpn ->
  let s1 := (tlb_invalidate s vpn).1 in
  hit_at s1 vpn = None /\
  (tlb_translate s1 va op pa).1.2 = pa /\
  walks (tlb_translate s1 va op pa).2 = [(va, op)].
Proof.
  intros Hnd1 Hnd2 Hpage s1.
  assert (Hmiss : hit_at s1 vpn = None).
  { subst s1. unfold hit_at.
    destruct (tlb_invalidate_arrays s vpn) as (-> & -> & _).
    rewrite !no_map_miss; auto using clear_first_match_complete. }
  split; [exact Hmiss|]. rewrite <- Hpage in Hmiss.
  split; [now apply miss_result|now apply miss_walk].
Qed.

(** *** Timestamps and the next victim *)

(** X14. In a state reached from start-up by calls too few for the 64-bit
    [access_counter] to have wrapped, both arrays have their declared
    capacity, no entry carries a timestamp ahead of [access_counter], and
    [access_counter] is at most twice the number of calls made. *)
Theorem timestamps_never_ahead (cs : list call) :
  (0 < TLB_L1_SIZE)%nat -> (0 < TLB_L2_SIZE)%nat -> no_wraparound cs ->
  let s := run boot cs in
  well_sized s /\ timestamps_bounded s /\
  access_counter s <= 2 * Z.of_nat (length cs).
Proof.
  intros Hpos1 Hpos2 Hcs s.
  destruct (reachable_inv cs Hpos1 Hpos2 Hcs) as [(Hs & Ht & Hc & _) _].
  repeat split; solve [apply Hs | apply Ht | exact Hc].
Qed.

Lemma fresh_slot_not_victim arr k e c0 :
  (1 < length arr)%nat -> (k < length arr)%nat -> valid e = true ->
  stamped_by c0 arr -> c0 < last_access e ->
  find_lru_victim (<[k := e]> arr) <> k.
Proof.
  intros Hlen Hk Hv Hstamp Hnew Hr.
  set (arr' := <[k := e]> arr) in *.
  assert (Hke : arr' !! k = Some e) by now apply list_lookup_insert_eq.
  assert (Hne : arr' <> []) by (intros E; rewrite E in Hke; discriminate).
  destruct (find_lru_victim_cases arr' Hne)
    as [(er & Her & Hinv & _)|[_ (er & Her & Hmin & _)]];
    rewrite Hr, Hke in Her; injection Her as <-; [congruence|].
  assert (Hother : exists j ej, j <> k /\ arr !! j = Some ej).
  { destruct arr as [|a [|b rest]]; simpl in Hlen; try lia.
    destruct k as [|k]; [exists 1%nat, b|exists 0%nat, a]; split; auto;
      discriminate. }
  destruct Hother as (j & ej & Hjk & Hj).
  assert (Hj' : arr' !! j = Some ej)
    by (unfold arr'; rewrite list_lookup_insert_ne; auto).
  pose proof (Hmin j ej Hj') as Hle.
  pose proof (proj1 (Forall_lookup _ _) Hstamp j ej Hj) as Hold.
  simpl in Hold. lia.
Qed.

(** The shape of L1 after a translation, before the counter wraps: one slot
    is overwritten with a valid entry for the page, stamped later than
    anything L1 held, and the lookup of the page now stops at that slot. *)
Lemma translate_l1_shape n s va op pa :
  hierarchy_inv n s -> 0 <= n -> 2 * n + 2 < 2 ^ 64 ->
  (0 < TLB_L1_SIZE)%nat ->
  let vpn := Z.shiftr va PAGE_SIZE_BITS in
  let s' := (tlb_translate s va op pa).1.1 in
  exists k e,
    tlb_l1 s' = <[k := e]> (tlb_l1 s) /\ (k < length (tlb_l1 s))%nat /\
    valid e = true /\ access_counter s < last_access e /\
    first_slot (tlb_match vpn) (tlb_l1 s') 0 = Some k.
Proof.
  intros Hinv Hn Hbound Hpos1 vpn s'.
  pose proof Hinv as ([Hs1 Hs2] & (Hc0 & Ht1 & Ht2) & Hcn & _).
  assert (Hc1 : uint64 (access_counter s + 1) = access_counter s + 1)
    by (apply uint64_small; lia).
  assert (Hc2 : uint64 (access_counter s + 1 + 1) = access_counter s + 2)
    by (rewrite uint64_small; lia).
  assert (Hne1 : tlb_l1 s <> []) by (eapply nonempty_of_length; eauto).
  pose proof (find_lru_victim_lt _ Hne1) as Hv1.
  subst s'. unfold tlb_translate. fold vpn.
  destruct (first_slot _ (tlb_l1 s) 0) as [i|] eqn:H1;
    [|destruct (first_slot _ (tlb_l2 s) 0) as [i|] eqn:H2].
  - pose proof (scan_hit _ _ _ H1) as (e & Hi & Hie & Hlt & Hv & Hvpn).
    unfold translate_l1_hit. cbn [fst snd tlb_l1]. rewrite Hie, Hc1.
    destruct (touch_fields (access_counter s + 1) op e)
      as (Htv & Htla & Htvpn & _).
    exists i, (touch (access_counter s + 1) op e).
    repeat split; auto; try congruence; try lia.
    rewrite <- H1. eapply first_slot_insert_same; [exact Hi|].
    unfold tlb_match. now rewrite Htv, Htvpn.
  - assert (Hd : demotion_slot (record_l2_hit s i op) i <> i)
      by (eapply demotion_slot_spares_hit; eauto).
    pose proof (scan_hit _ _ _ H2) as (e & Hi & _ & _ & Hv & Hvpn).
    destruct (l2_hit_outcome s i op (Z.land va page_mask) e Hi Hne1 Hd)
      as (Hl1 & _ & _).
    rewrite Hc1 in Hl1.
    destruct (touch_fields (access_counter s + 1) op e)
      as (Htv & Htla & Htvpn & _).
    unfold translate_l2_hit in *. cbn [fst snd tlb_l1] in *.
    rewrite list_lookup_insert_eq in Hl1 by exact Hv1.
    injection Hl1 as Hl1. rewrite Hl1.
    exists (find_lru_victim (tlb_l1 s)), (touch (access_counter s + 1) op e).
    repeat split; auto; try congruence; try lia.
    rewrite (first_slot_insert_fresh _ _ 0 _ _ H1 Hv1); [reflexivity|].
    unfold tlb_match. rewrite Htv, Htvpn, Hv, Hvpn. simpl.
    now rewrite Z.eqb_refl.
  - unfold translate_miss. cbn [fst snd tlb_l1]. rewrite Hc1, Hc2.
    eexists _, _. split; [reflexivity|]. repeat split; auto; simpl; try lia.
    rewrite (first_slot_insert_fresh _ _ 0 _ _ H1 Hv1); [reflexivity|].
    unfold tlb_match. simpl. now rewrite Z.eqb_refl.
Qed.

(** X15. The page just translated is safe from the next L1 replacement. In
    a state reached from start-up before the counter can wrap, and with at
    least two L1 slots, after any translation the page is found in L1 (a
    repeated access would hit there) and the slot holding it is not the one
    victim selection in L1 returns next. *)
Theorem recently_used_not_victim (cs : list call) (va : Z) (op : op_t)
    (pa : Z) :
  (1 < TLB_L1_SIZE)%nat -> (0 < TLB_L2_SIZE)%nat -> no_wraparound cs ->
  let s' := (tlb_translate (run boot cs) va op pa).1.1 in
  exists k, hit_at s' (Z.shiftr va PAGE_SIZE_BITS) = Some (L1, k) /\
            find_lru_victim_l1 s' <> k.
Proof.
  intros Hpos1 Hpos2 Hcs s'.
  assert (Hpos1' : (0 < TLB_L1_SIZE)%nat) by lia.
  destruct (reachable_inv cs Hpos1' Hpos2 Hcs) as [Hinv Hbound].
  destruct (translate_l1_shape _ _ va op pa Hinv ltac:(lia) Hbound Hpos1')
    as (k & e & Hshape & Hk & Hv & Hla & Hscan).
  fold s' in Hshape, Hscan.
  exists k. split; [unfold hit_at; now rewrite Hscan|].
  unfold find_lru_victim_l1. rewrite Hshape.
  destruct Hinv as ([Hs1 _] & (_ & Ht1 & _) & _).
  eapply fresh_slot_not_victim; eauto. lia.
Qed.

(** *** The L1 halves of the no-duplicate and invalidation properties *)

(** X16. In every state reached from start-up, wrapped counter or not, L1
    holds at most one valid entry for any page; so when the L1 lookup of a
    page stops at slot [i], no other L1 slot holds a valid entry for that
    page. *)
Theorem l1_never_duplicates (cs : list call) (vpn : Z) (i : nat) :
  (0 < TLB_L1_SIZE)%nat ->
  let s := run boot cs in
  no_duplicates (tlb_l1 s) /\
  (hit_at s vpn = Some (L1, i) ->
   forall k e, tlb_l1 s !! k = Some e -> valid e = true ->
               virtual_page_number e = vpn -> k = i).
Proof.
  intros Hpos s. destruct (l1_no_duplicates cs Hpos) as [Hnd _].
  fold s in Hnd. split; [exact Hnd|].
  unfold hit_at.
  destruct (first_slot _ (tlb_l1 s) 0) as [j|] eqn:Hscan;
    [|destruct (first_slot _ (tlb_l2 s) 0); discriminate].
  intros [= <-] k e Hk Hv Hp.
  apply scan_hit in Hscan as (ej & Hj & _ & _ & Hvj & Hpj).
  apply (Hnd k j e ej Hk Hj Hv Hvj). congruence.
Qed.

(** X17. In every state reached from start-up, after [tlb_invalidate] no
    valid L1 entry maps the page, so the next translation of the page
    cannot hit in L1. *)
Theorem l1_invalidation_total (cs : list call) (vpn : Z) :
  (0 < TLB_L1_SIZE)%nat ->
  let s1 := (tlb_invalidate (run boot cs) vpn).1 in
  ~ maps_vpn (tlb_l1 s1) vpn /\
  forall k, hit_at s1 vpn <> Some (L1, k).
Proof.
  intros Hpos s1.
  assert (Hno : ~ maps_vpn (tlb_l1 s1) vpn)
    by now apply l1_invalidation_complete.
  split; [exact Hno|]. intros k. unfold hit_at.
  rewrite (no_map_miss _ _ Hno).
  destruct (first_slot _ (tlb_l2 s1) 0); discriminate.
Qed.

(** *** Promotion, re-scan and write-back addresses *)

(** X18. After a promotion the two copies agree. In a state reached from
    start-up before the counter can wrap, a translation that misses in L1
    and hits in L2 at slot [i] leaves one and the same entry in slot [i] of
    L2 and in the L1 victim slot, stamped with the new value of
    [access_counter], which has advanced by one. *)
Theorem promotion_copies_agree (cs : list call) (va : Z) (op : op_t)
    (pa : Z) (i : nat) :
  (0 < TLB_L1_SIZE)%nat -> (0 < TLB_L2_SIZE)%nat -> no_wraparound cs ->
  let s := run boot cs in
  let s' := (tlb_translate s va op pa).1.1 in
  hit_at s (Z.shiftr va PAGE_SIZE_BITS) = Some (L2, i) ->
  exists e,
    tlb_l1 s' !! find_lru_victim_l1 s = Some e /\
    tlb_l2 s' !! i = Some e /\
    last_access e = access_counter s' /\
    access_counter s' = access_counter s + 1.
Proof.
  intros Hpos1 Hpos2 Hcs s s'.
  destruct (reachable_inv cs Hpos1 Hpos2 Hcs) as [Hinv Hbound].
  fold s in Hinv. subst s'. unfold hit_at, tlb_translate.
  destruct (first_slot _ (tlb_l1 s) 0) eqn:H1; [discriminate|].
  destruct (first_slot _ (tlb_l2 s) 0) as [k|] eqn:H2; [|discriminate].
  intros [= <-].
  assert (Hd : demotion_slot (record_l2_hit s k op) k <> k)
    by (eapply demotion_slot_spares_hit; eauto; lia).
  pose proof (scan_hit _ _ _ H2) as (e & Hk & _).
  pose proof Hinv as ([Hs1 _] & (Hc0 & _) & Hcn & _).
  assert (Hne1 : tlb_l1 s <> []) by (eapply nonempty_of_length; eauto).
  destruct (l2_hit_outcome s k op (Z.land va page_mask) e Hk Hne1 Hd)
    as (Hl1 & Hl2 & _).
  exists (touch (uint64 (access_counter s + 1)) op e).
  split; [exact Hl1|]. split; [exact Hl2|].
  destruct (touch_fields (uint64 (access_counter s + 1)) op e)
    as (_ & -> & _).
  split; [reflexivity|]. unfold translate_l2_hit. cbn [fst access_counter].
  apply uint64_small. lia.
Qed.

Lemma rescan_l2_stays arr j i oldest pos :
  (forall k e, arr !! k = Some e -> oldest <= last_access e) ->
  rescan_l2 arr j i oldest pos = pos.
Proof.
  revert j. induction arr as [|a arr IH]; intros j Hall; [reflexivity|].
  simpl. pose proof (Hall 0%nat a eq_refl) as Ha.
  destruct (Z.ltb_spec (last_access a) oldest); [lia|].
  apply IH. intros k e Hk. exact (Hall (S k) e Hk).
Qed.

Lemma least_recent_unique arr r r' :
  least_recent arr r -> least_recent arr r' -> r = r'.
Proof.
  intros (e & He & Hmin & Hfirst) (e' & He' & Hmin' & Hfirst').
  destruct (Nat.lt_trichotomy r r') as [Hlt|[Heq|Hgt]]; [|exact Heq|].
  - pose proof (Hfirst' r e Hlt He). pose proof (Hmin r' e' He'). lia.
  - pose proof (Hfirst r' e' Hgt He'). pose proof (Hmin' r e He). lia.
Qed.

(** X19. What the re-scan does when it is entered. If every slot of L2 is
    valid and slot 0, the slot of the hit, holds the least timestamp, the
    L2 victim is slot 0 and the re-scan, which starts from the timestamp of
    slot 0 itself, finds nothing older: the slot chosen for the demotion is
    slot 0 again. *)
Theorem rescan_keeps_slot_zero (l2 : list tlb_entry_t) :
  l2 <> [] ->
  (forall j e, l2 !! j = Some e -> valid e = true) ->
  least_recent l2 0 ->
  demotion_slot l2 0 = 0%nat.
Proof.
  intros Hne Hall Hleast.
  assert (Hv : find_lru_victim l2 = 0%nat)
    by (eapply least_recent_unique;
        [now apply find_lru_victim_full|exact Hleast]).
  unfold demotion_slot. rewrite Hv. simpl.
  destruct Hleast as (e0 & H0 & Hmin & _).
  rewrite (list_lookup_total_correct _ _ _ H0).
  apply rescan_l2_stays. intros k e Hk.
  apply (Hmin (S k)). now rewrite lookup_drop in Hk.
Qed.

Lemma write_backs_app tr1 tr2 :
  write_backs (tr1 ++ tr2) = write_backs tr1 ++ write_backs tr2.
Proof.
  induction tr1 as [|[ns|v o|a] tr1 IH]; simpl; auto. now rewrite IH.
Qed.

Lemma write_back_form s va op pa vpn a :
  a ∈ write_backs (tlb_translate s va op pa).2 \/
  a ∈ write_backs (tlb_invalidate s vpn).2 ->
  exists p, a = page_address p.
Proof.
  intros [Ha|Ha].
  - unfold tlb_translate in Ha.
    destruct (first_slot _ (tlb_l1 s) 0);
      [|destruct (first_slot _ (tlb_l2 s) 0)];
      unfold translate_l1_hit, translate_l2_hit, translate_miss in Ha;
      cbn [snd] in Ha; try rewrite write_backs_app in Ha; simpl in Ha;
      try (apply elem_of_nil in Ha; contradiction).
    destruct (valid _ && dirty _); simpl in Ha;
      [|apply elem_of_nil in Ha; contradiction].
    apply list_elem_of_singleton in Ha. eauto.
  - unfold tlb_invalidate in Ha.
    destruct (first_slot _ (tlb_l1 s) 0);
      destruct (first_slot _ (tlb_l2 s) 0); cbn [snd] in Ha;
      try destruct (dirty _); simpl in Ha;
      try (apply elem_of_nil in Ha; contradiction);
      apply list_elem_of_singleton in Ha; eauto.
Qed.

(** X20. Every address handed to [write_back_tlb_entry], by a translation
    or by an invalidation, is a page address: a 64-bit value whose low
    [PAGE_SIZE_BITS] bits are zero. *)
Theorem write_back_addresses_aligned (s : tlb_state) (va : Z) (op : op_t)
    (pa vpn a : Z) :
  0 <= PAGE_SIZE_BITS < 64 ->
  a ∈ write_backs (tlb_translate s va op pa).2 \/
  a ∈ write_backs (tlb_invalidate s vpn).2 ->
  0 <= a < 2 ^ 64 /\ Z.land a page_mask = 0.
Proof.
  intros Hb Ha. apply write_back_form in Ha as [p ->].
  split; [apply uint64_range|].
  rewrite page_mask_ones by exact Hb. now apply page_address_low.
Qed.

End Further.

(** ** The worked scenarios, evaluated *)

#[local] Existing Instance small_config.

(** C5 at work: after two writes and a read of a third page, L1 is full and
    its least recently used slot is slot 1, while L2 still has slot 3
    free. *)
Lemma find_lru_victim_policy_witness :
  let s := run boot
             [call_init; write_page 1; write_page 2; read_page 3] in
  well_sized s /\
  first_free (tlb_l2 s) (find_lru_victim_l2 s) /\
  least_recent (tlb_l1 s) (find_lru_victim_l1 s) /\
  find_lru_victim_l2 s = 3%nat /\ find_lru_victim_l1 s = 1%nat.
Proof.
  intros s.
  assert (Hs : well_sized s) by (split; reflexivity).
  destruct (@find_lru_victim_policy small_config s Hs)
    as (_ & Hfull & Hfree & _); [simpl; lia|simpl; lia|].
  split; [exact Hs|]. split; [|split; [|split; reflexivity]].
  - apply Hfree. exists 3%nat, zero_entry. split; reflexivity.
  - apply Hfull. intros [|[|k]] e; vm_compute; intros [= <-]; reflexivity.
Defined.

(** C7: calling [tlb_init] again after one translation leaves
    [access_counter] at 2. *)
Lemma tlb_init_keeps_access_counter :
  let s := run boot [call_init; read_page 1] in
  access_counter (tlb_init s) = 2 /\
  access_counter (tlb_init s) <> 0.
Proof. split; [reflexivity|discriminate]. Qed.

(** C7 at work: [tlb_init] on the state with both levels full. *)
Lemma tlb_init_clears_witness :
  let s' := tlb_init (run boot fill_calls) in
  tlb_l1 s' = [zero_entry; zero_entry] /\
  tlb_l2 s' = [zero_entry; zero_entry; zero_entry; zero_entry] /\
  tlb_l1_misses s' = 0 /\ tlb_l2_misses s' = 0 /\ access_counter s' = 8.
Proof.
  intros s'.
  destruct (tlb_init_clears (run boot fill_calls))
    as (_ & _ & _ & _ & Hm1 & _ & _ & Hm2 & _ & Hc & _).
  repeat split; auto.
Defined.

(** C10 at work: [tlb_invalidate(2)] on the state with pages 3 and 1 in L1
    and pages 1, 2, 3 and 2 in L2. *)
Lemma tlb_invalidate_frame_witness :
  let s := run boot demotion_calls in
  let s' := (tlb_invalidate s 2).1 in
  access_counter s' = 7 /\ tlb_l1 s' = tlb_l1 s /\
  invalidate_frame 2 (tlb_l1 s) (tlb_l1 s') /\
  invalidate_frame 2 (tlb_l2 s) (tlb_l2 s').
Proof.
  intros s s'.
  destruct (tlb_invalidate_frame s 2) as (_ & _ & _ & _ & Hc & Hf1 & Hf2).
  split; [etransitivity; [exact Hc|vm_compute; reflexivity]|].
  split; [vm_compute; reflexivity|]. split; assumption.
Defined.

(** C4 at work, on the state with both levels full of dirty pages: a miss
    on page 5 writes back frame 101 of the L2 victim (page 1); an L2 hit on
    page 1, which demotes the dirty L1 victim, writes nothing back; and
    [tlb_invalidate(2)] writes back frame 102. *)
Lemma write_back_calls_witness :
  let s := run boot fill_calls in
  write_backs (tlb_translate s (5 * 4096) OP_READ (105 * 4096)).2
    = [101 * 4096] /\
  write_backs (tlb_translate s (1 * 4096) OP_READ 0).2 = [] /\
  write_backs (tlb_invalidate s 2).2 = [102 * 4096].
Proof.
  intros s.
  destruct (write_back_calls s (5 * 4096) OP_READ (105 * 4096) 2)
    as [Hmiss Hinv].
  destruct (write_back_calls s (1 * 4096) OP_READ 0 2) as [Hhit _].
  split; [|split].
  - etransitivity; [exact Hmiss|vm_compute; reflexivity].
  - etransitivity; [exact Hhit|vm_compute; reflexivity].
  - etransitivity; [exact Hinv|vm_compute; reflexivity].
Defined.

(** C3 at work: the first translation after start-up stamps L2 slot 0 with
    1 and L1 slot 0 with 2. *)
Lemma miss_fill_timestamps_witness :
  let s := boot in
  let s' := (tlb_translate s 4096 OP_READ 20480).1.1 in
  well_sized s /\
  hit_at s 1 = None /\
  (exists e1 e2,
     tlb_l1 s' !! 0%nat = Some e1 /\ tlb_l2 s' !! 0%nat = Some e2 /\
     last_access e2 = 1 /\ last_access e1 = 2 /\
     last_access e1 <> last_access e2).
Proof.
  intros s s'.
  assert (Hs : well_sized s) by (split; reflexivity).
  split; [exact Hs|]. split; [reflexivity|].
  destruct (@miss_fill_timestamps small_config s 4096 OP_READ 20480 Hs)
    as (e1 & e2 & H1 & H2 & Hla2 & Hla1 & Hne);
    [simpl; lia|simpl; lia|reflexivity|].
  exists e1, e2. repeat split; auto.
  - rewrite Hla1, Hla2. reflexivity.
Defined.

(** The dirty flag at work: page 1 is loaded clean, written (an L1 hit) and read again
    (another L1 hit on the same slot); the slot stays dirty. *)
Lemma dirty_propagation_witness :
  let s0 := run boot [call_init; read_page 1] in
  let s1 := (tlb_translate s0 4096 OP_WRITE 0).1.1 in
  let s2 := (tlb_translate s1 4096 OP_READ 0).1.1 in
  hit_at s0 1 = Some (L1, 0%nat) /\ hit_at s1 1 = Some (L1, 0%nat) /\
  ~ slot_dirty (tlb_l1 s0) 0 /\
  slot_dirty (tlb_l1 s1) 0 /\ slot_dirty (tlb_l1 s2) 0.
Proof.
  intros s0 s1 s2.
  assert (Hhit0 : hit_at s0 (Z.shiftr 4096 PAGE_SIZE_BITS) = Some (L1, 0%nat))
    by reflexivity.
  assert (Hhit1 : hit_at s1 (Z.shiftr 4096 PAGE_SIZE_BITS) = Some (L1, 0%nat))
    by reflexivity.
  assert (H1 : slot_dirty (tlb_l1 s1) 0).
  { apply (dirty_propagation s0 4096 OP_WRITE 0 L1 0 Hhit0). now left. }
  repeat split; auto.
  - intros (e & He & Hd). vm_compute in He. injection He as <-. discriminate.
  - apply (dirty_propagation s1 4096 OP_READ 0 L1 0 Hhit1). now right.
Defined.

(** Promotion at work: page 1 has been evicted from L1 by page 3; reading it hits
    L2 slot 0, the dirty L1 victim (page 2) is demoted to the free L2 slot
    3, and page 1 is back in L1. *)
Lemma promotion_keeps_hit_entry_witness :
  let cs := [call_init; write_page 1; write_page 2; read_page 3] in
  let s := run boot cs in
  let s' := (tlb_translate s 4096 OP_READ 0).1.1 in
  no_wraparound cs /\ hit_at s 1 = Some (L2, 0%nat) /\
  demotion_slot (record_l2_hit s 0 OP_READ) 0 = 3%nat /\
  (exists e, tlb_l2 s' !! 0%nat = Some e /\ valid e = true /\
             virtual_page_number e = 1) /\
  maps_vpn (tlb_l1 s') 1.
Proof.
  intros cs s s'.
  assert (Hcs : no_wraparound cs) by (unfold no_wraparound; simpl; lia).
  assert (Hhit : hit_at s (Z.shiftr 4096 PAGE_SIZE_BITS) = Some (L2, 0%nat))
    by reflexivity.
  assert (Hpos1 : (0 < TLB_L1_SIZE)%nat) by (simpl; lia).
  assert (Hpos2 : (0 < TLB_L2_SIZE)%nat) by (simpl; lia).
  destruct (promotion_keeps_hit_entry cs 4096 OP_READ 0 0 Hpos1 Hpos2 Hcs Hhit)
    as (_ & Hl2 & Hl1).
  repeat split; auto.
Defined.

(** The hit result at work: the same L2 hit returns frame 101 of page 1 with the offset
    of the address. *)
Lemma hit_correctness_witness :
  let cs := [call_init; write_page 1; write_page 2; read_page 3] in
  let s := run boot cs in
  no_wraparound cs /\ hit_at s 1 = Some (L2, 0%nat) /\
  (tlb_translate s (4096 + 52) OP_READ 0).1.2 = 101 * 4096 + 52.
Proof.
  intros cs s.
  assert (Hcs : no_wraparound cs) by (unfold no_wraparound; simpl; lia).
  assert (Hhit : hit_at s (Z.shiftr (4096 + 52) PAGE_SIZE_BITS)
                 = Some (L2, 0%nat)) by reflexivity.
  assert (Hpos1 : (0 < TLB_L1_SIZE)%nat) by (simpl; lia).
  assert (Hpos2 : (0 < TLB_L2_SIZE)%nat) by (simpl; lia).
  split; [exact Hcs|]. split; [reflexivity|].
  destruct (hit_correctness s (4096 + 52) OP_READ 0 L2 0 Hpos1 Hpos2
              (fun _ => ex_intro _ cs (conj Hcs eq_refl)) Hhit)
    as (e & He & _ & _ & Hres).
  etransitivity; [exact Hres|].
  vm_compute in He. injection He as <-. reflexivity.
Defined.

(** C1, where the code departs from it: after [demotion_calls] L2 holds two
    valid entries for page 2, in slot 1 (from the original fill) and in
    slot 3 (the copy of the dirty L1 victim made by the promotion of
    page 1). *)
Theorem demotion_duplicates_l2 :
  let s := run boot demotion_calls in
  (exists e1 e3,
     tlb_l2 s !! 1%nat = Some e1 /\ tlb_l2 s !! 3%nat = Some e3 /\
     valid e1 = true /\ valid e3 = true /\
     virtual_page_number e1 = 2 /\ virtual_page_number e3 = 2) /\
  ~ no_duplicates (tlb_l2 s).
Proof.
  intros s.
  assert (Hdup : exists e1 e3,
     tlb_l2 s !! 1%nat = Some e1 /\ tlb_l2 s !! 3%nat = Some e3 /\
     valid e1 = true /\ valid e3 = true /\
     virtual_page_number e1 = 2 /\ virtual_page_number e3 = 2).
  { do 2 eexists. repeat split; reflexivity. }
  split; [exact Hdup|].
  destruct Hdup as (e1 & e3 & H1 & H3 & Hv1 & Hv3 & Hp1 & Hp3).
  intros Hnd. specialize (Hnd 1%nat 3%nat e1 e3 H1 H3 Hv1 Hv3).
  rewrite Hp1, Hp3 in Hnd. specialize (Hnd eq_refl). discriminate.
Qed.

(** The duplicate does not hinge on the small capacities: with sixteen and
    sixty-four slots the same pattern leaves page 2 in L2 slots 1 and 17. *)
Lemma demotion_duplicates_l2_wide :
  let s := @run wide_config (@boot wide_config) wide_demotion_calls in
  exists e1 e17,
    tlb_l2 s !! 1%nat = Some e1 /\ tlb_l2 s !! 17%nat = Some e17 /\
    valid e1 = true /\ valid e17 = true /\
    virtual_page_number e1 = 2 /\ virtual_page_number e17 = 2.
Proof.
  exists (TlbEntry true true 3 2 102), (TlbEntry true true 4 2 102).
  split; [vm_compute; reflexivity|]. split; [vm_compute; reflexivity|].
  repeat split.
Qed.

(** C2, where the code departs from it: [tlb_invalidate] stops at the first
    match, so after [demotion_calls] the call [tlb_invalidate(2)] clears
    slot 1 of L2 and leaves the duplicate in slot 3 valid. *)
Theorem invalidate_leaves_duplicate :
  let s := run boot demotion_calls in
  let s' := (tlb_invalidate s 2).1 in
  (exists e1, tlb_l2 s' !! 1%nat = Some e1 /\ valid e1 = false) /\
  (exists e3, tlb_l2 s' !! 3%nat = Some e3 /\ valid e3 = true /\
              virtual_page_number e3 = 2) /\
  maps_vpn (tlb_l2 s') 2.
Proof.
  intros s s'. split; [|split].
  - eexists. split; reflexivity.
  - eexists. repeat split; reflexivity.
  - exists 3%nat. eexists. repeat split; reflexivity.
Qed.

(** [wrapped_state] is reached from start-up: [fill_calls], then
    [2^64 - 9] reads of page 4, each an L1 hit on slot 1. *)
Lemma wrapped_state_reached :
  run boot (fill_calls ++ repeat (read_page 4) (Z.to_nat (2 ^ 64 - 9)))
  = wrapped_state.
Proof.
  rewrite <- run_app.
  assert (Hfill : after_l1_hits (run boot fill_calls) 1 0 = run boot fill_calls)
    by (vm_compute; reflexivity).
  rewrite <- Hfill at 1.
  unfold read_page. rewrite after_l1_hits_run by (vm_compute; reflexivity).
  rewrite Z2Nat.id by lia. reflexivity.
Qed.

(** C6, where the code departs from it: in [wrapped_state], which is
    reached from start-up, a read of page 1 misses in
    L1 and hits L2 slot 0, whose new timestamp wraps to 0 and makes it the
    least recently used slot of a full L2; the re-scan does not move away
    from it, the dirty L1 victim (page 3) is copied over the entry that
    hit, and page 1 is in neither level afterwards. *)
Lemma promotion_fails_after_wraparound :
  exists cs : list call,
    let s := run boot cs in
    let s' := (tlb_translate s 4096 OP_READ 0).1.1 in
    let victim := tlb_l1 s !!! find_lru_victim_l1 s in
    hit_at s 1 = Some (L2, 0%nat) /\
    valid victim && dirty victim = true /\
    demotion_slot (record_l2_hit s 0 OP_READ) 0 = 0%nat /\
    ~ maps_vpn (tlb_l2 s') 1 /\
    ~ maps_vpn (tlb_l1 s') 1.
Proof.
  exists (fill_calls ++ repeat (read_page 4) (Z.to_nat (2 ^ 64 - 9))).
  cbv zeta. rewrite wrapped_state_reached.
  split; [vm_compute; reflexivity|]. split; [vm_compute; reflexivity|].
  split; [vm_compute; reflexivity|].
  split; intros (k & e & Hk & Hv & Hvpn).
  - destruct k as [|[|[|[|k]]]]; vm_compute in Hk; try discriminate;
      injection Hk as <-; discriminate.
  - destruct k as [|[|k]]; vm_compute in Hk; try discriminate;
      injection Hk as <-; discriminate.
Qed.

(** C8, where the code departs from it: the same call returns the address
    of frame
    103, the frame of the demoted page 3, although the entry that hit maps
    page 1 to frame 101. *)
Lemma hit_returns_other_frame_after_wraparound :
  exists (cs : list call) (e : tlb_entry_t),
    let s := run boot cs in
    hit_at s 1 = Some (L2, 0%nat) /\
    tlb_l2 s !! 0%nat = Some e /\ valid e = true /\
    virtual_page_number e = 1 /\ physical_page_number e = 101 /\
    (tlb_translate s (4096 + 52) OP_READ 0).1.2 = 103 * 4096 + 52 /\
    (tlb_translate s (4096 + 52) OP_READ 0).1.2
      <> Z.lor (page_address (physical_page_number e))
               (Z.land (4096 + 52) page_mask).
Proof.
  exists (fill_calls ++ repeat (read_page 4) (Z.to_nat (2 ^ 64 - 9))).
  eexists. cbv zeta. rewrite wrapped_state_reached.
  split; [vm_compute; reflexivity|]. split; [vm_compute; reflexivity|].
  repeat split; try (vm_compute; reflexivity).
  vm_compute. discriminate.
Qed.

(** [wrapped_clean_state] is reached from start-up in the same way. *)
Lemma wrapped_clean_state_reached :
  run boot (clean_fill_calls ++ repeat (read_page 4) (Z.to_nat (2 ^ 64 - 9)))
  = wrapped_clean_state.
Proof.
  rewrite <- run_app.
  assert (Hfill : after_l1_hits (run boot clean_fill_calls) 1 0
                  = run boot clean_fill_calls) by (vm_compute; reflexivity).
  rewrite <- Hfill at 1.
  unfold read_page. rewrite after_l1_hits_run by (vm_compute; reflexivity).
  rewrite Z2Nat.id by lia. reflexivity.
Qed.

(** C9, where the code departs from it: in [wrapped_clean_state], which is
    reached from start-up, page 1 sits clean in L2 slot 0 and a write to it
    misses in L1 and hits there. The hit sets the dirty flag of the entry,
    but the demotion step then copies the dirty L1 victim (page 3) over
    slot 0: after the call slot 0 holds page 3, no valid entry of either
    level maps page 1, and nothing was written back, so the entry that hit
    is not left dirty but lost. *)
Theorem write_hit_lost_after_wraparound :
  exists cs : list call,
    let s := run boot cs in
    let out := tlb_translate s 4096 OP_WRITE 0 in
    hit_at s 1 = Some (L2, 0%nat) /\
    tlb_l2 s !! 0%nat = Some (TlbEntry true false 1 1 101) /\
    demotion_overwrites s 0 OP_WRITE = true /\
    tlb_l2 out.1.1 !! 0%nat = Some (TlbEntry true true 0 3 103) /\
    ~ maps_vpn (tlb_l1 out.1.1) 1 /\ ~ maps_vpn (tlb_l2 out.1.1) 1 /\
    write_backs out.2 = [].
Proof.
  exists (clean_fill_calls ++ repeat (read_page 4) (Z.to_nat (2 ^ 64 - 9))).
  cbv zeta. rewrite wrapped_clean_state_reached.
  do 4 (split; [vm_compute; reflexivity|]).
  split; [|split; [|vm_compute; reflexivity]];
    intros (k & e & Hk & Hv & Hvpn).
  - destruct k as [|[|k]]; vm_compute in Hk; try discriminate;
      injection Hk as <-; discriminate.
  - destruct k as [|[|[|[|k]]]]; vm_compute in Hk; try discriminate;
      injection Hk as <-; discriminate.
Qed.

(** ** The further properties at work *)

(** Checks a concrete array for duplicates slot by slot. *)
Ltac no_duplicates_by_cases :=
  let j := fresh "j" in
  let k := fresh "k" in
  let Hj := fresh "Hj" in
  let Hk := fresh "Hk" in
  intros j k ? ? Hj Hk;
  repeat (destruct j as [|j]; [|try (vm_compute in Hj; discriminate Hj)]);
  repeat (destruct k as [|k]; [|try (vm_compute in Hk; discriminate Hk)]);
  vm_compute in Hj, Hk; try discriminate;
  injection Hj as <-; injection Hk as <-;
  vm_compute; intros; solve [reflexivity | discriminate].

(** X1 at work: with both levels full, a read of page 5 is charged both
    latencies and walks the page table; a read of page 4 hits in L1. *)
Lemma translate_external_calls_witness :
  let s := run boot fill_calls in
  let miss := tlb_translate s (5 * 4096) OP_READ (105 * 4096) in
  let hit := tlb_translate s (4 * 4096) OP_READ 0 in
  latencies miss.2 = [1; 10] /\ walks miss.2 = [(5 * 4096, OP_READ)] /\
  miss.1.2 = 105 * 4096 /\
  latencies hit.2 = [1] /\ walks hit.2 = [].
Proof.
  intros s miss hit.
  pose proof (translate_external_calls s (5 * 4096) OP_READ (105 * 4096) 0)
    as [Hmiss _].
  pose proof (translate_external_calls s (4 * 4096) OP_READ 0 0) as [Hhit _].
  cbv zeta in Hmiss, Hhit.
  assert (E5 : hit_at s (Z.shiftr (5 * 4096) PAGE_SIZE_BITS) = None)
    by (vm_compute; reflexivity).
  assert (E4 : hit_at s (Z.shiftr (4 * 4096) PAGE_SIZE_BITS)
               = Some (L1, 1%nat)) by (vm_compute; reflexivity).
  rewrite E5 in Hmiss. rewrite E4 in Hhit.
  destruct Hmiss as (Hl & Hw & Hr). destruct Hhit as (Hl' & Hw').
  repeat split; assumption.
Defined.

(** X2 at work: the L2 hit on page 1 after pages 1, 2 and 3 were loaded. *)
Lemma translate_statistics_witness :
  let s := run boot [call_init; write_page 1; write_page 2; read_page 3] in
  let s' := (tlb_translate s 4096 OP_READ 0).1.1 in
  tlb_l1_hits s' = 0 /\ tlb_l1_misses s' = 4 /\ tlb_l2_hits s' = 1 /\
  tlb_l2_misses s' = 3 /\ access_counter s' = 7.
Proof.
  intros s s'.
  pose proof (translate_statistics s 4096 OP_READ 0) as (_ & _ & H).
  assert (E : hit_at s (Z.shiftr 4096 PAGE_SIZE_BITS) = Some (L2, 0%nat))
    by (vm_compute; reflexivity).
  rewrite E in H. destruct H as (H1 & H2 & H3 & H4 & H5).
  repeat split; (etransitivity; [eassumption|vm_compute; reflexivity]).
Defined.

(** X3 at work: after [demotion_calls] the four L1 misses are three L2
    misses and one L2 hit. *)
Lemma statistics_accounting_witness :
  let s := run boot demotion_calls in
  tlb_l1_misses s = 4 /\ tlb_l2_hits s + tlb_l2_misses s = 4 /\
  translations_since_init demotion_calls = 4 /\
  tlb_l1_misses s = uint64 (tlb_l2_hits s + tlb_l2_misses s).
Proof.
  intros s. destruct (statistics_accounting demotion_calls) as [Hacc _].
  do 3 (split; [vm_compute; reflexivity|]). exact Hacc.
Defined.

(** X4 at work: page 9 is nowhere in the full hierarchy. *)
Lemma tlb_invalidate_absent_witness :
  let s := run boot fill_calls in tlb_invalidate s 9 = (s, []).
Proof.
  intros s. apply tlb_invalidate_absent;
    apply miss_no_map; vm_compute; reflexivity.
Defined.

(** X5 at work: page 1 is in L2 only. *)
Lemma tlb_invalidate_counts_witness :
  let s := run boot fill_calls in
  let s' := (tlb_invalidate s 1).1 in
  tlb_l1_invalidations s' = 0 /\ tlb_l2_invalidations s' = 1.
Proof.
  intros s s'.
  destruct (tlb_invalidate_counts s 1) as (_ & H1 & H2 & _). split.
  - etransitivity; [apply H1|vm_compute; reflexivity].
    apply miss_no_map. vm_compute. reflexivity.
  - etransitivity; [apply H2|vm_compute; reflexivity].
    exists 0%nat. eexists. repeat split; vm_compute; reflexivity.
Defined.

(** X6 at work: [tlb_init] on the full hierarchy, then a write to page 7. *)
Lemma cold_translation_witness :
  let s := run boot fill_calls in
  let out := tlb_translate (tlb_init s) (7 * 4096 + 5) OP_WRITE
                           (107 * 4096 + 5) in
  out.1.2 = 107 * 4096 + 5 /\ write_backs out.2 = [] /\
  tlb_l2 out.1.1 !! 0%nat = Some (TlbEntry true true 9 7 107) /\
  tlb_l1 out.1.1 !! 0%nat = Some (TlbEntry true true 10 7 107).
Proof.
  intros s out.
  assert (Hpos1 : (0 < TLB_L1_SIZE)%nat) by (simpl; lia).
  assert (Hpos2 : (0 < TLB_L2_SIZE)%nat) by (simpl; lia).
  destruct (cold_translation s (7 * 4096 + 5) OP_WRITE (107 * 4096 + 5)
              Hpos1 Hpos2) as (_ & Hr & Hw & Hl2 & Hl1).
  repeat split; try assumption;
    (etransitivity; [eassumption|vm_compute; reflexivity]).
Defined.

(** X7 at work: page 2 is loaded by a read into slot 1 of both levels;
    another byte of it is then found in L1 slot 1 and translated to frame
    102. *)
Lemma fill_then_hit_witness :
  let s := run boot [call_init; read_page 1] in
  let s1 := (tlb_translate s (2 * 4096) OP_READ (102 * 4096)).1.1 in
  well_sized s /\ hit_at s 2 = None /\
  tlb_l2 s1 !! 1%nat = Some (TlbEntry true false 3 2 102) /\
  tlb_l1 s1 !! 1%nat = Some (TlbEntry true false 4 2 102) /\
  hit_at s1 2 = Some (L1, 1%nat) /\
  (tlb_translate s1 (2 * 4096 + 7) OP_WRITE 0).1.2 = 102 * 4096 + 7.
Proof.
  intros s s1.
  assert (Hs : well_sized s) by (split; reflexivity).
  assert (Hpos1 : (0 < TLB_L1_SIZE)%nat) by (simpl; lia).
  assert (Hpos2 : (0 < TLB_L2_SIZE)%nat) by (simpl; lia).
  assert (Hmiss : hit_at s (Z.shiftr (2 * 4096) PAGE_SIZE_BITS) = None)
    by (vm_compute; reflexivity).
  assert (Hpage : Z.shiftr (2 * 4096 + 7) PAGE_SIZE_BITS
                  = Z.shiftr (2 * 4096) PAGE_SIZE_BITS)
    by (vm_compute; reflexivity).
  destruct (fill_then_hit s (2 * 4096) OP_READ (102 * 4096)
              (2 * 4096 + 7) OP_WRITE 0 Hs Hpos1 Hpos2 Hmiss Hpage)
    as (He2 & He1 & Hhit & _ & _ & Hres).
  split; [exact Hs|]. split; [vm_compute; reflexivity|].
  split; [etransitivity; [exact He2|vm_compute; reflexivity]|].
  split; [etransitivity; [exact He1|vm_compute; reflexivity]|].
  split.
  - etransitivity; [exact Hhit|vm_compute; reflexivity].
  - etransitivity; [exact Hres|vm_compute; reflexivity].
Defined.

(** X8 at work: page 1 hits in L2 slot 0 and is promoted; offset 52
    survives and the bits above it are frame 101. *)
Lemma hit_keeps_offset_witness :
  let s := run boot [call_init; write_page 1; write_page 2; read_page 3] in
  let result := (tlb_translate s (4096 + 52) OP_READ 0).1.2 in
  hit_at s 1 = Some (L2, 0%nat) /\ demotion_overwrites s 0 OP_READ = false /\
  Z.land result page_mask = 52 /\ Z.shiftr result PAGE_SIZE_BITS = 101.
Proof.
  intros s result.
  assert (Hb : 0 <= PAGE_SIZE_BITS < 64) by (simpl; lia).
  assert (Hhit : hit_at s (Z.shiftr (4096 + 52) PAGE_SIZE_BITS)
                 = Some (L2, 0%nat)) by (vm_compute; reflexivity).
  assert (Hkept : demotion_overwrites s 0 OP_READ = false)
    by (vm_compute; reflexivity).
  destruct (hit_keeps_offset s (4096 + 52) OP_READ 0 L2 0 Hb Hhit)
    as (e & e' & He & _ & Hoff & _ & Hframe & Hsame).
  specialize (Hsame (or_intror Hkept)).
  vm_compute in He. injection He as <-. simpl in Hsame.
  split; [vm_compute; reflexivity|]. split; [exact Hkept|]. split.
  - etransitivity; [exact Hoff|vm_compute; reflexivity].
  - etransitivity; [apply Hframe|exact Hsame].
    rewrite Hsame. vm_compute. split; [discriminate|reflexivity].
Defined.

(** X9 at work: the first access after start-up and its repetition both
    return the walker's answer. *)
Lemma repeated_translation_agrees_witness :
  let first := tlb_translate boot (4096 + 52) OP_READ (101 * 4096 + 52) in
  let second := tlb_translate first.1.1 (4096 + 52) OP_WRITE 0 in
  first.1.2 = 101 * 4096 + 52 /\ second.1.2 = 101 * 4096 + 52 /\
  walks second.2 = [].
Proof.
  assert (Hs : well_sized boot) by (split; reflexivity).
  assert (Hpos1 : (0 < TLB_L1_SIZE)%nat) by (simpl; lia).
  assert (Hpos2 : (0 < TLB_L2_SIZE)%nat) by (simpl; lia).
  assert (Hb : 0 <= PAGE_SIZE_BITS < 64) by (simpl; lia).
  assert (Hpa : 0 <= 101 * 4096 + 52 < 2 ^ 64) by lia.
  assert (Hoff : Z.land (101 * 4096 + 52) page_mask
                 = Z.land (4096 + 52) page_mask) by (vm_compute; reflexivity).
  assert (Hmiss : hit_at boot (Z.shiftr (4096 + 52) PAGE_SIZE_BITS) = None)
    by (vm_compute; reflexivity).
  exact (repeated_translation_agrees boot (4096 + 52) OP_READ
           (101 * 4096 + 52) OP_WRITE 0 Hs Hpos1 Hpos2 Hb Hpa Hoff Hmiss).
Defined.

(** X10 at work: the indices computed on the full hierarchy. *)
Lemma slot_indices_in_range_witness :
  let s := run boot fill_calls in
  well_sized s /\
  (find_lru_victim_l1 s < 2)%nat /\ (find_lru_victim_l2 s < 4)%nat /\
  (demotion_slot (record_l2_hit s 0 OP_READ) 0 < 4)%nat.
Proof.
  intros s.
  assert (Hs : well_sized s) by (split; reflexivity).
  assert (Hpos1 : (0 < TLB_L1_SIZE)%nat) by (simpl; lia).
  assert (Hpos2 : (0 < TLB_L2_SIZE)%nat) by (simpl; lia).
  destruct (slot_indices_in_range s 1 OP_READ Hs Hpos1 Hpos2)
    as (H1 & H2 & _ & H4).
  assert (Hscan : first_slot (tlb_match 1) (tlb_l2 s) 0 = Some 0%nat)
    by (vm_compute; reflexivity).
  destruct (H4 0%nat Hscan) as [_ Hd].
  repeat split; assumption.
Defined.

(** X11 at work: a write that hits page 1 in L1 slot 0. *)
Lemma l1_hit_frame_witness :
  let s := run boot [call_init; read_page 1; read_page 2] in
  let s' := (tlb_translate s 4096 OP_WRITE 0).1.1 in
  hit_at s 1 = Some (L1, 0%nat) /\
  tlb_l2 s' = tlb_l2 s /\ tlb_l1 s' !! 1%nat = tlb_l1 s !! 1%nat /\
  tlb_l1 s' !! 0%nat = Some (TlbEntry true true 5 1 101).
Proof.
  intros s s'.
  assert (Hhit : hit_at s (Z.shiftr 4096 PAGE_SIZE_BITS) = Some (L1, 0%nat))
    by (vm_compute; reflexivity).
  destruct (l1_hit_frame s 4096 OP_WRITE 0 0 Hhit)
    as (Hl2 & [_ Hsame] & e & He & He').
  split; [vm_compute; reflexivity|]. split; [exact Hl2|].
  split; [apply Hsame; discriminate|].
  etransitivity; [exact He'|].
  vm_compute in He. injection He as <-. vm_compute. reflexivity.
Defined.

(** X12 at work: pages 1, 2 and 3 loaded by reads; page 1 then hits in L2
    while the L1 victim is clean, and L2 stays free of duplicates. *)
Lemma l2_duplicates_only_by_demotion_witness :
  let s := run boot [call_init; read_page 1; read_page 2; read_page 3] in
  no_duplicates (tlb_l2 s) /\
  hit_at s 1 = Some (L2, 0%nat) /\
  no_duplicates (tlb_l2 (tlb_invalidate s 2).1) /\
  no_duplicates (tlb_l2 (tlb_translate s 4096 OP_READ 0).1.1).
Proof.
  intros s.
  assert (Hnd : no_duplicates (tlb_l2 s)) by no_duplicates_by_cases.
  destruct (l2_duplicates_only_by_demotion s 4096 OP_READ 0 2 Hnd)
    as [Hinv Htr].
  split; [exact Hnd|]. split; [vm_compute; reflexivity|].
  split; [exact Hinv|]. apply Htr. intros i _. vm_compute. reflexivity.
Defined.

(** X13 at work: page 1 is invalidated and then read again. *)
Lemma invalidate_then_miss_witness :
  let s := run boot [call_init; write_page 1; write_page 2] in
  let s1 := (tlb_invalidate s 1).1 in
  hit_at s 1 = Some (L1, 0%nat) /\ hit_at s1 1 = None /\
  (tlb_translate s1 (4096 + 3) OP_READ (201 * 4096 + 3)).1.2
    = 201 * 4096 + 3.
Proof.
  intros s s1.
  assert (Hnd1 : no_duplicates (tlb_l1 s)) by no_duplicates_by_cases.
  assert (Hnd2 : no_duplicates (tlb_l2 s)) by no_duplicates_by_cases.
  assert (Hpage : Z.shiftr (4096 + 3) PAGE_SIZE_BITS = 1)
    by (vm_compute; reflexivity).
  destruct (invalidate_then_miss s 1 (4096 + 3) OP_READ (201 * 4096 + 3)
              Hnd1 Hnd2 Hpage) as (Hmiss & Hres & _).
  split; [vm_compute; reflexivity|]. split; assumption.
Defined.

(** X14 at work: five calls, and the counter stands at 8. *)
Lemma timestamps_never_ahead_witness :
  let s := run boot fill_calls in
  no_wraparound fill_calls /\ timestamps_bounded s /\
  access_counter s = 8 /\ access_counter s <= 10.
Proof.
  intros s.
  assert (Hcs : no_wraparound fill_calls)
    by (unfold no_wraparound; simpl; lia).
  assert (Hpos1 : (0 < TLB_L1_SIZE)%nat) by (simpl; lia).
  assert (Hpos2 : (0 < TLB_L2_SIZE)%nat) by (simpl; lia).
  destruct (timestamps_never_ahead fill_calls Hpos1 Hpos2 Hcs)
    as (_ & Ht & Hc).
  split; [exact Hcs|]. split; [exact Ht|].
  split; [vm_compute; reflexivity|exact Hc].
Defined.

(** X15 at work: after pages 1 and 2 were written, a read of page 1 hits L1
    slot 0, and the next L1 victim is slot 1. *)
Lemma recently_used_not_victim_witness :
  let cs := [call_init; write_page 1; write_page 2] in
  let s' := (tlb_translate (run boot cs) 4096 OP_READ 0).1.1 in
  no_wraparound cs /\
  hit_at s' 1 = Some (L1, 0%nat) /\ find_lru_victim_l1 s' = 1%nat /\
  exists k, hit_at s' 1 = Some (L1, k) /\ find_lru_victim_l1 s' <> k.
Proof.
  intros cs s'.
  assert (Hcs : no_wraparound cs) by (unfold no_wraparound; simpl; lia).
  assert (Hpos1 : (1 < TLB_L1_SIZE)%nat) by (simpl; lia).
  assert (Hpos2 : (0 < TLB_L2_SIZE)%nat) by (simpl; lia).
  split; [exact Hcs|]. split; [vm_compute; reflexivity|].
  split; [vm_compute; reflexivity|].
  exact (recently_used_not_victim cs 4096 OP_READ 0 Hpos1 Hpos2 Hcs).
Defined.

(** X16 at work: L1 after [demotion_calls], where L2 does hold a
    duplicate. *)
Lemma l1_never_duplicates_witness :
  let s := run boot demotion_calls in
  hit_at s 3 = Some (L1, 0%nat) /\ no_duplicates (tlb_l1 s) /\
  forall k e, tlb_l1 s !! k = Some e -> valid e = true ->
              virtual_page_number e = 3 -> k = 0%nat.
Proof.
  intros s.
  assert (Hpos1 : (0 < TLB_L1_SIZE)%nat) by (simpl; lia).
  assert (Hhit : hit_at s 3 = Some (L1, 0%nat)) by (vm_compute; reflexivity).
  destruct (l1_never_duplicates demotion_calls 3 0 Hpos1) as [Hnd Honly].
  split; [exact Hhit|]. split; [exact Hnd|]. exact (Honly Hhit).
Defined.

(** X17 at work: page 1 sits in L1 slot 1 after [demotion_calls] and is gone
    from L1 after its invalidation. *)
Lemma l1_invalidation_total_witness :
  let s := run boot demotion_calls in
  let s1 := (tlb_invalidate s 1).1 in
  hit_at s 1 = Some (L1, 1%nat) /\ ~ maps_vpn (tlb_l1 s1) 1.
Proof.
  intros s s1.
  assert (Hpos1 : (0 < TLB_L1_SIZE)%nat) by (simpl; lia).
  destruct (l1_invalidation_total demotion_calls 1 Hpos1) as [Hno _].
  split; [vm_compute; reflexivity|exact Hno].
Defined.

(** X18 at work: the promotion of page 1 leaves the same entry, stamped 7,
    in L1 slot 1 and in L2 slot 0. *)
Lemma promotion_copies_agree_witness :
  let cs := [call_init; write_page 1; write_page 2; read_page 3] in
  let s := run boot cs in
  let s' := (tlb_translate s 4096 OP_READ 0).1.1 in
  no_wraparound cs /\ hit_at s 1 = Some (L2, 0%nat) /\
  tlb_l1 s' !! 1%nat = tlb_l2 s' !! 0%nat /\
  tlb_l2 s' !! 0%nat = Some (TlbEntry true true 7 1 101).
Proof.
  intros cs s s'.
  assert (Hcs : no_wraparound cs) by (unfold no_wraparound; simpl; lia).
  assert (Hpos1 : (0 < TLB_L1_SIZE)%nat) by (simpl; lia).
  assert (Hpos2 : (0 < TLB_L2_SIZE)%nat) by (simpl; lia).
  assert (Hhit : hit_at s (Z.shiftr 4096 PAGE_SIZE_BITS) = Some (L2, 0%nat))
    by (vm_compute; reflexivity).
  destruct (promotion_copies_agree cs 4096 OP_READ 0 0 Hpos1 Hpos2 Hcs Hhit)
    as (e & Hl1 & Hl2 & _).
  split; [exact Hcs|]. split; [vm_compute; reflexivity|]. split.
  - etransitivity; [|symmetry; exact Hl2].
    etransitivity; [|exact Hl1]. vm_compute. reflexivity.
  - vm_compute. reflexivity.
Defined.

(** X19 at work: L2 of [wrapped_state] once the hit on page 1 has been
    recorded in slot 0 with the wrapped timestamp 0. *)
Lemma rescan_keeps_slot_zero_witness :
  let l2 := record_l2_hit wrapped_state 0 OP_READ in
  least_recent l2 0 /\ demotion_slot l2 0 = 0%nat.
Proof.
  intros l2.
  assert (Hne : l2 <> []) by discriminate.
  assert (Hall : forall j e, l2 !! j = Some e -> valid e = true).
  { intros [|[|[|[|j]]]] e; vm_compute; intros [= <-]; reflexivity. }
  assert (Hleast : least_recent l2 0).
  { eexists. split; [vm_compute; reflexivity|]. split.
    - intros [|[|[|[|j]]]] e'; vm_compute; intros [= <-]; discriminate.
    - intros j e' Hj. lia. }
  split; [exact Hleast|].
  exact (rescan_keeps_slot_zero l2 Hne Hall Hleast).
Defined.

(** X20 at work: the write-back of page 1's frame when page 5 is loaded
    into the full hierarchy. *)
Lemma write_back_addresses_aligned_witness :
  let s := run boot fill_calls in
  write_backs (tlb_translate s (5 * 4096) OP_READ (105 * 4096)).2
    = [101 * 4096] /\
  0 <= 101 * 4096 < 2 ^ 64 /\ Z.land (101 * 4096) page_mask = 0.
Proof.
  intros s.
  assert (Hb : 0 <= PAGE_SIZE_BITS < 64) by (simpl; lia).
  assert (Hwb : write_backs
                  (tlb_translate s (5 * 4096) OP_READ (105 * 4096)).2
                = [101 * 4096]) by (vm_compute; reflexivity).
  split; [exact Hwb|].
  apply (write_back_addresses_aligned s (5 * 4096) OP_READ (105 * 4096) 0
           (101 * 4096) Hb).
  left. rewrite Hwb. apply list_elem_of_singleton. reflexivity.
Defined.
